(** * Panel data loader of the dashboard (usePanelDataLoader.ts)

    A shallow embedding of [web/src/composables/dashboard/usePanelDataLoader.ts]:
    the interval calculator ([formatInterval], [getTimeInSecondsBasedOnUnit],
    [formateRateInterval]), the variable substitution of [replaceQueryValue],
    the change detection of the variables watcher and the [loadData]
    orchestrator with its promise handlers.

    Conventions of the embedding.
    - A JavaScript number is an exact rational, extended by the two
      infinities and NaN where the source can produce them (a division by an
      element width).  IEEE rounding is not modelled; [-0] is identified
      with [0] (the only divisors of the source are an element width and the
      literal [1000]).
    - A JavaScript string is a [string]; [undefined] and [null] are [None].
    - The reactive [state] object, the refs and the two baseline snapshots
      are fields of one record that is threaded through the functions. *)

From Stdlib Require Import ZArith QArith Qround Qminmax Lia Lqa Bool List.
From Stdlib Require Import Ascii String DecimalString.
From Stdlib Require Qcanon.
From Stdlib Require Import Sorted.
Import ListNotations.

#[local] Set Warnings "-notation-for-abbreviation".

Local Open Scope string_scope.
Local Open Scope Z_scope.

(** ** Numbers *)

Inductive number : Type :=
| Finite (q : Q)
| PosInfinity
| NegInfinity
| NaN.

(** [x <= c] and [x < c] against a finite constant: every comparison with
    NaN is false. *)
Definition num_le (x : number) (c : Q) : bool :=
  match x with
  | Finite q => Qle_bool q c
  | PosInfinity => false
  | NegInfinity => true
  | NaN => false
  end.

Definition num_lt (x : number) (c : Q) : bool :=
  match x with
  | Finite q => negb (Qle_bool c q)
  | PosInfinity => false
  | NegInfinity => true
  | NaN => false
  end.

(** The sign of a rational as the quotient of a division by zero needs it. *)
Definition num_of_sign (s : comparison) : number :=
  match s with
  | Gt => PosInfinity
  | Lt => NegInfinity
  | Eq => NaN
  end.

Definition flip_inf (neg : bool) (positive : number) : number :=
  match positive, neg with
  | PosInfinity, true => NegInfinity
  | NegInfinity, true => PosInfinity
  | n, _ => n
  end.

(** The [/] operator. *)
Definition num_div (x y : number) : number :=
  match x, y with
  | NaN, _ | _, NaN => NaN
  | Finite a, Finite b =>
      if Qeq_bool b 0 then num_of_sign (a ?= 0)%Q else Finite (a / b)
  | Finite _, (PosInfinity | NegInfinity) => Finite 0
  | (PosInfinity | NegInfinity), (PosInfinity | NegInfinity) => NaN
  | inf, Finite b => flip_inf (negb (Qle_bool 0 b)) inf
  end.

Definition num_of_Z (z : Z) : number := Finite (inject_Z z).

(** ** formatInterval *)

Record IntervalSpec : Type := mkInterval {
  iv_value : Z;
  iv_unit : string
}.

Definition formatInterval (interval : number) : IntervalSpec :=
  if num_le interval 10 then mkInterval 1 "ms"
  else if num_le interval 15 then mkInterval 10 "ms"
  else if num_le interval 35 then mkInterval 20 "ms"
  else if num_le interval 75 then mkInterval 50 "ms"
  else if num_le interval 150 then mkInterval 100 "ms"
  else if num_le interval 350 then mkInterval 200 "ms"
  else if num_le interval 750 then mkInterval 500 "ms"
  else if num_le interval 1500 then mkInterval 1 "s"
  else if num_le interval 3500 then mkInterval 2 "s"
  else if num_le interval 7500 then mkInterval 5 "s"
  else if num_le interval 12500 then mkInterval 10 "s"
  else if num_le interval 17500 then mkInterval 15 "s"
  else if num_le interval 25000 then mkInterval 20 "s"
  else if num_le interval 45000 then mkInterval 30 "s"
  else if num_le interval 90000 then mkInterval 1 "m"
  else if num_le interval 210000 then mkInterval 2 "m"
  else if num_le interval 450000 then mkInterval 5 "m"
  else if num_le interval 750000 then mkInterval 10 "m"
  else if num_le interval 1050000 then mkInterval 15 "m"
  else if num_le interval 1500000 then mkInterval 20 "m"
  else if num_le interval 2700000 then mkInterval 30 "m"
  else if num_le interval 5400000 then mkInterval 1 "h"
  else if num_le interval 9000000 then mkInterval 2 "h"
  else if num_le interval 16200000 then mkInterval 3 "h"
  else if num_le interval 32400000 then mkInterval 6 "h"
  else if num_le interval 86400000 then mkInterval 12 "h"
  else if num_le interval 172800000 then mkInterval 24 "h"
  else if num_le interval 604800000 then mkInterval 24 "h"
  else if num_le interval 1814400000 then mkInterval 1 "w"
  else if num_lt interval 3628800000 then mkInterval 30 "d"
  else mkInterval 1 "y".

(** ** getTimeInSecondsBasedOnUnit *)

Definition getTimeInSecondsBasedOnUnit (seconds : Q) (unit : string) : Q :=
  if (unit =? "ms")%string then seconds / 1000
  else if (unit =? "s")%string then seconds
  else if (unit =? "m")%string then seconds * 60
  else if (unit =? "h")%string then seconds * 60 * 60
  else if (unit =? "d")%string then seconds * 60 * 60 * 24
  else if (unit =? "w")%string then seconds * 60 * 60 * 24 * 7
  else if (unit =? "y")%string then seconds * 60 * 60 * 24 * 7 * 12
  else seconds.

(** [Math.max] on two finite numbers. *)
Definition Math_max (a b : Q) : Q := if Qle_bool a b then b else a.

(** [Math.floor] of a finite number, and the [%] operator (the remainder of
    the division truncated towards zero: the sign of the dividend). *)
Definition Math_floor (q : Q) : Z := Qfloor q.

Definition Qtrunc (q : Q) : Z := if Qle_bool 0 q then Qfloor q else Qceiling q.

Definition js_rem (x y : Q) : Q := x - y * inject_Z (Qtrunc (x / y)).

(** ** Number.prototype.toString

    An integer prints in decimal (below 1e21, where JavaScript turns to the
    exponent notation).  The digits of a number with a fractional part come
    from the shortest round-trip printing of the double, which is taken as a
    parameter. *)

Definition Z_toString (z : Z) : string := NilZero.string_of_int (Z.to_int z).

Section NumberToString.

Variable fractionToString : Q -> string.

Definition toString (q : Q) : string :=
  let r := Qred q in
  if (Qden r =? 1)%positive then Z_toString (Qnum r) else fractionToString q.

(** ** formateRateInterval *)

Definition formateRateInterval (interval : Q) : string :=
  let formattedStr := "" in
  let days := Math_floor (interval / (3600 * 24)) in
  let formattedStr :=
    if 0 <? days then formattedStr ++ (Z_toString days ++ "d") else formattedStr in
  let hours := Math_floor (js_rem interval (3600 * 24) / 3600) in
  let formattedStr :=
    if 0 <? hours then formattedStr ++ (Z_toString hours ++ "h") else formattedStr in
  let minutes := Math_floor (js_rem interval 3600 / 60) in
  let formattedStr :=
    if 0 <? minutes then formattedStr ++ (Z_toString minutes ++ "m") else formattedStr in
  let remainingSeconds := js_rem interval 60 in
  let formattedStr :=
    if negb (Qle_bool remainingSeconds 0)
    then formattedStr ++ (toString remainingSeconds ++ "s") else formattedStr in
  formattedStr.

End NumberToString.

(** ** Strings: includes, replaceAll, slice *)

(** [s.includes(search)] *)
Fixpoint includes (s search : string) : bool :=
  prefix search s ||
  match s with
  | EmptyString => false
  | String _ s' => includes s' search
  end.

Fixpoint drop (n : nat) (s : string) : string :=
  match n, s with
  | O, _ => s
  | S _, EmptyString => EmptyString
  | S k, String _ s' => drop k s'
  end.

(** [GetSubstitution] of ECMAScript for a string pattern (no captures): in
    the replacement text [$$] stands for a dollar, [$&] for the matched
    text, [$`] for the text before the match and [$'] for the text after
    it; any other dollar is literal. *)
Fixpoint getSubstitution (matched before after template : string) : string :=
  match template with
  | EmptyString => EmptyString
  | String a t =>
      if (a =? "$")%char then
        match t with
        | EmptyString => String a EmptyString
        | String c rest =>
            if (c =? "$")%char then String "$" (getSubstitution matched before after rest)
            else if (c =? "&")%char then matched ++ getSubstitution matched before after rest
            else if (c =? "`")%char then before ++ getSubstitution matched before after rest
            else if (c =? "'")%char then after ++ getSubstitution matched before after rest
            else String a (getSubstitution matched before after t)
        end
      else String a (getSubstitution matched before after t)
  end.

(** [s.replaceAll(searchValue, replaceValue)] with two strings: the
    occurrences are found from left to right, each search resuming behind
    the previous occurrence; [before] is the text already passed and [skip]
    counts the characters of the current occurrence still to pass. *)
Fixpoint replaceAll_from (searchValue replaceValue : string)
    (before rest : string) (skip : nat) : string :=
  match rest with
  | EmptyString =>
      if ((skip =? 0)%nat && (searchValue =? "")%string)%bool
      then getSubstitution searchValue before "" replaceValue
      else EmptyString
  | String c rest' =>
      match skip with
      | S k => replaceAll_from searchValue replaceValue (before ++ String c "") rest' k
      | O =>
          if prefix searchValue rest then
            getSubstitution searchValue before
              (drop (String.length searchValue) rest) replaceValue ++
            match String.length searchValue with
            | O => String c (replaceAll_from searchValue replaceValue
                               (before ++ String c "") rest' 0)
            | S k => replaceAll_from searchValue replaceValue
                       (before ++ String c "") rest' k
            end
          else String c (replaceAll_from searchValue replaceValue
                           (before ++ String c "") rest' 0)
      end
  end.

Definition replaceAll (s searchValue replaceValue : string) : string :=
  replaceAll_from searchValue replaceValue "" s 0.

(** [s.slice(0, n)] *)
Definition slice0 (n : nat) (s : string) : string := substring 0 n s.

(** ** Data model *)

(** One entry of an ad-hoc filter variable: [{name, operator, value}]. *)
Record AdHocFilter : Type := mkFilter {
  f_name : string;
  f_operator : string;
  f_value : string
}.

(** The value of a variable: a string, or for the type ["ad-hoc-filters"]
    an array of filter objects. *)
Inductive VarValue : Type :=
| Scalar (s : string)
| Filters (l : list AdHocFilter).

(** An element of [variablesData.value.values]. *)
Record VariableBinding : Type := mkVariable {
  var_name : string;
  var_type : string;
  var_value : VarValue;
  var_isLoading : bool
}.

(** What the two baselines keep of an entry: the watcher and
    [replaceQueryValue] read [name] and [value] only. *)
Record NamedValue : Type := mkNamed {
  nv_name : string;
  nv_value : VarValue
}.

Definition named_of_variable (v : VariableBinding) : NamedValue :=
  mkNamed (var_name v) (var_value v).

Definition named_of_filter (f : AdHocFilter) : NamedValue :=
  mkNamed (f_name f) (Scalar (f_value f)).

(** [ToString] of a value: an array joins its elements with commas, and a
    filter object prints as ["[object Object]"]. *)
Definition stringify (v : VarValue) : string :=
  match v with
  | Scalar s => s
  | Filters l => String.concat "," (map (fun _ => "[object Object]") l)
  end.

(** The [==] operator on two values.  Two arrays are compared by identity,
    and the sides of every comparison of the source are distinct objects
    (one of them comes out of [JSON.parse]). *)
Definition looseEq (a b : VarValue) : bool :=
  match a, b with
  | Scalar s, Scalar t => (s =? t)%string
  | Scalar s, Filters _ => (s =? stringify b)%string
  | Filters _, Scalar t => (stringify a =? t)%string
  | Filters _, Filters _ => false
  end.

(** An entry of the substitution ledger. *)
Record LedgerEntry : Type := mkEntry {
  le_type : string;
  le_name : string;
  le_value : VarValue;
  le_operator : option string
}.

Record Query : Type := mkQuery {
  q_query : string;
  q_stream_type : option string      (* fields?.stream_type *)
}.

Record PanelSchema : Type := mkPanel {
  queryType : string;
  queries : list Query
}.

(** A date-like bound of the selected time range. *)
Inductive DateLike : Type :=
| ValidDate (ms : Z)
| InvalidDate.

Record TimeObj : Type := mkTime {
  start_time : option DateLike;
  end_time : option DateLike
}.

(** Everything the composable reads from outside. *)
Record Env : Type := mkEnv {
  panelSchema : PanelSchema;
  selectedTimeObj : option TimeObj;
  variablesData : option (list VariableBinding);     (* variablesData.value?.values *)
  offsetWidth : option Z;                     (* chartPanelRef.value?.offsetWidth *)
  org_identifier : string;
  scrape_interval : option Q
}.

Record QueryMetadata : Type := mkMetadata {
  md_originalQuery : string;
  md_query : string;
  md_startTime : Z;
  md_endTime : Z;
  md_queryType : string;
  md_variables : list LedgerEntry
}.

(** The body of a response, which the loader hands on unread. *)
Definition Payload : Type := string.

(** What a sub-query promise resolves to: [{result, metadata}]. *)
Record SubResult : Type := mkSubResult {
  sr_result : Payload;
  sr_metadata : QueryMetadata
}.

(** The reactive state, the two refs and the two baselines. *)
Record State : Type := mkState {
  data : list Payload;
  loading : bool;
  errorDetail : string;
  metadata : option (list QueryMetadata);     (* [None] is the initial [{}] *)
  isDirty : bool;
  isVisible : bool;
  currentDependentVariablesData : list NamedValue;
  currentAdHocVariablesData : list NamedValue
}.

Definition set_data (x : list Payload) (st : State) : State :=
  mkState x (loading st) (errorDetail st) (metadata st) (isDirty st) (isVisible st)
    (currentDependentVariablesData st) (currentAdHocVariablesData st).

Definition set_loading (x : bool) (st : State) : State :=
  mkState (data st) x (errorDetail st) (metadata st) (isDirty st) (isVisible st)
    (currentDependentVariablesData st) (currentAdHocVariablesData st).

Definition set_errorDetail (x : string) (st : State) : State :=
  mkState (data st) (loading st) x (metadata st) (isDirty st) (isVisible st)
    (currentDependentVariablesData st) (currentAdHocVariablesData st).

Definition set_metadata (x : option (list QueryMetadata)) (st : State) : State :=
  mkState (data st) (loading st) (errorDetail st) x (isDirty st) (isVisible st)
    (currentDependentVariablesData st) (currentAdHocVariablesData st).

Definition set_isDirty (x : bool) (st : State) : State :=
  mkState (data st) (loading st) (errorDetail st) (metadata st) x (isVisible st)
    (currentDependentVariablesData st) (currentAdHocVariablesData st).

Definition set_isVisible (x : bool) (st : State) : State :=
  mkState (data st) (loading st) (errorDetail st) (metadata st) (isDirty st) x
    (currentDependentVariablesData st) (currentAdHocVariablesData st).

Definition set_currentDependentVariablesData (x : list NamedValue) (st : State) : State :=
  mkState (data st) (loading st) (errorDetail st) (metadata st) (isDirty st) (isVisible st)
    x (currentAdHocVariablesData st).

Definition set_currentAdHocVariablesData (x : list NamedValue) (st : State) : State :=
  mkState (data st) (loading st) (errorDetail st) (metadata st) (isDirty st) (isVisible st)
    (currentDependentVariablesData st) x.


(** ** The interval and the rate window of replaceQueryValue *)

(** [((end - start) / (chartPanelRef.value?.offsetWidth ?? 1000)) / 1000] *)
Definition rawInterval (startISOTimestamp endISOTimestamp : Z)
    (width : option Z) : number :=
  num_div
    (num_div (num_of_Z (endISOTimestamp - startISOTimestamp))
             (num_of_Z (match width with Some w => w | None => 1000 end)))
    (Finite 1000).

(** [organizationSettings.scrape_interval ?? 15] *)
Definition scrapeIntervalOf (setting : option Q) : Q :=
  match setting with
  | Some s => s
  | None => 15
  end.

(** [Math.max(getTimeInSecondsBasedOnUnit(value, unit) + scrapeInterval,
              4 * scrapeInterval)] *)
Definition rateInterval (setting : option Q) (formattedInterval : IntervalSpec) : Q :=
  let scrapeInterval := scrapeIntervalOf setting in
  Math_max
    (getTimeInSecondsBasedOnUnit (inject_Z (iv_value formattedInterval))
       (iv_unit formattedInterval) + scrapeInterval)
    (4 * scrapeInterval).

(** ** Variable substitution *)

(** The body of the two [forEach] loops of [replaceQueryValue]: the ledger
    gets an entry when the query holds the token, and the query has the
    token replaced. *)
Definition substituteVariable (type : string) (acc : string * list LedgerEntry)
    (variable : NamedValue) : string * list LedgerEntry :=
  let (query, ledger) := acc in
  let variableName := "$" ++ nv_name variable in
  let variableValue := nv_value variable in
  let ledger :=
    if includes query variableName
    then (ledger ++ [mkEntry type (nv_name variable) variableValue None])%list
    else ledger in
  (replaceAll query variableName (stringify variableValue), ledger).

(** ** The dependency gate *)

Definition isAdHoc (v : VariableBinding) : bool :=
  (var_type v =? "ad-hoc-filters")%string.

(** [queries?.map(q => q?.query?.includes(`$${name}`))?.includes(true)] *)
Definition referencedBy (qs : list Query) (v : VariableBinding) : bool :=
  existsb (Bool.eqb true)
    (map (fun q => includes (q_query q) ("$" ++ var_name v)) qs).

(** The [dependentVariables] of the gate and of the watcher: the variables
    that are not ad-hoc filters and whose token some query holds. *)
Definition dependentVariables (env : Env) : option (list VariableBinding) :=
  match variablesData env with
  | Some values =>
      Some (filter (referencedBy (queries (panelSchema env)))
              (filter (fun it => negb (isAdHoc it)) values))
  | None => None
  end.

Definition isQueryDependentOnTheVariables (env : Env) : bool :=
  match dependentVariables env with
  | Some l => (0 <? List.length l)%nat
  | None => false
  end.

Definition canRunQueryBasedOnVariables (env : Env) : bool :=
  match dependentVariables env with
  | Some l =>
      if (0 <? List.length l)%nat then
        let dependentAvailableVariables :=
          filter (fun it => negb (var_isLoading it)) l in
        (List.length dependentAvailableVariables =? List.length l)%nat
      else true
  | None => true
  end.

(** The flattened ad-hoc filters with an operator, a name and a value; a
    value that is no array stays one element of [flat()] and has none of the
    three.  [None] is the [undefined] of the optional chain. *)
Definition adHocFiltersOf (env : Env) : option (list AdHocFilter) :=
  match variablesData env with
  | Some values =>
      Some (filter
              (fun it => negb (f_operator it =? "")%string &&
                         negb (f_name it =? "")%string &&
                         negb (f_value it =? "")%string)
              (flat_map
                 (fun it => match var_value it with
                            | Filters l => l
                            | Scalar _ => []
                            end)
                 (filter isAdHoc values)))
  | None => None
  end.

(** ** processApiError *)

Record ResponseData : Type := mkResponseData {
  rd_error : option string;
  rd_error_detail : option string;
  rd_message : option string
}.

(** A rejection of the service: [error.response], [error.response.data]
    and [error.message] may each be missing. *)
Record ApiError : Type := mkApiError {
  err_response : option (option ResponseData);
  err_message : option string
}.

(** [a || b] on strings that may be undefined. *)
Definition or_else (a b : option string) : option string :=
  match a with
  | Some s => if (s =? "")%string then b else a
  | None => b
  end.

(** The [errorDetailValue] of the two cases; [None] when it is undefined
    or when the chain throws on a response without data. *)
Definition errorDetailValue (error : ApiError) (type : string) : option string :=
  if (type =? "promql")%string then
    or_else
      (match err_response error with
       | Some (Some d) => rd_error d
       | _ => None
       end)
      (err_message error)
  else
    match err_response error with
    | Some (Some d) =>
        or_else (rd_error_detail d) (or_else (rd_message d) (err_message error))
    | Some None => None
    | None => err_message error
    end.

Definition processApiError (error : ApiError) (type : string) (st : State) : State :=
  if ((type =? "promql") || (type =? "sql"))%string then
    match errorDetailValue error type with
    | Some value =>
        let trimmedErrorMessage :=
          if (300 <? String.length value)%nat
          then slice0 300 value ++ " ..."
          else value in
        set_errorDetail trimmedErrorMessage st
    | None => st       (* [.length] of undefined: the async function rejects *)
    end
  else st.

(** ** Requests, settlements and the outcome of an attempt *)

(** A call of the execution service ([sql_mode] and [size] are constants). *)
Inductive Request : Type :=
| metrics_query_range (org query : string) (start_time end_time : Z)
| search (org sql : string) (start_time end_time : Z) (page_type : option string).

(** How a call settles. *)
Inductive Settled : Type :=
| Fulfilled (res : Payload)
| Rejected (error : ApiError).

(** Where the synchronous part of [loadData] ends. *)
Inductive Started : Type :=
| ReturnedEarly                       (* one of the two [return]s *)
| ThrewEarly                          (* a TypeError before the [await] *)
| Awaiting (type : string) (tasks : list (option (Request * QueryMetadata))).

(** How the promise of [loadData] ends. *)
Inductive Outcome : Type :=
| Returned
| Thrown
| Pending.

Section Loader.

(** The printing of a fractional number, and the two label utilities of
    [@/utils/query], which are not part of this file. *)
Variable fractionToString : Q -> string.
Variable addLabelToPromQlQuery : string -> string -> string -> string -> string.
Variable addLabelsToSQlQuery : string -> list AdHocFilter -> string.

(** *** replaceQueryValue *)

Definition fixedVariables (env : Env) (startISOTimestamp endISOTimestamp : Z)
    : list NamedValue :=
  let __interval := rawInterval startISOTimestamp endISOTimestamp (offsetWidth env) in
  let formattedInterval := formatInterval __interval in
  let __rate_interval := rateInterval (scrape_interval env) formattedInterval in
  let __interval_ms :=
    (getTimeInSecondsBasedOnUnit (inject_Z (iv_value formattedInterval))
       (iv_unit formattedInterval) * 1000)%Q in
  [ mkNamed "__interval_ms"
      (Scalar (toString fractionToString __interval_ms ++ "ms"));
    mkNamed "__interval"
      (Scalar (Z_toString (iv_value formattedInterval) ++ iv_unit formattedInterval));
    mkNamed "__rate_interval"
      (Scalar (formateRateInterval fractionToString __rate_interval)) ].

Definition replaceQueryValue (env : Env) (st : State) (query : string)
    (startISOTimestamp endISOTimestamp : Z) : string * list LedgerEntry :=
  let acc :=
    fold_left (substituteVariable "fixed")
      (fixedVariables env startISOTimestamp endISOTimestamp) (query, []) in
  match currentDependentVariablesData st with
  | [] => acc
  | variables => fold_left (substituteVariable "variable") variables acc
  end.

(** *** applyAdhocVariables; [None] is the TypeError of
    [adHocVariables.length] on a store without values. *)

Definition dynamicEntry (variable : AdHocFilter) : LedgerEntry :=
  mkEntry "dynamicVariable" (f_name variable) (Scalar (f_value variable))
    (Some (f_operator variable)).

Definition applyAdhocVariables (env : Env) (query queryType : string)
    : option (string * list LedgerEntry) :=
  match adHocFiltersOf env with
  | None => None
  | Some adHocVariables =>
      if (List.length adHocVariables =? 0)%nat then Some (query, [])
      else
        let acc :=
          if (queryType =? "promql")%string then
            fold_left
              (fun (acc : string * list LedgerEntry) variable =>
                 (addLabelToPromQlQuery (fst acc) (f_name variable)
                    (f_value variable) (f_operator variable),
                  (snd acc ++ [dynamicEntry variable])%list))
              adHocVariables (query, [])
          else (query, []) in
        let acc :=
          if (queryType =? "sql")%string then
            (addLabelsToSQlQuery (fst acc) adHocVariables,
             (snd acc ++ map dynamicEntry adHocVariables)%list)
          else acc in
        Some acc
  end.

(** *** loadData *)

(** The time window, when both bounds are there and valid. *)
Definition timeWindow (env : Env) : option (Z * Z) :=
  match selectedTimeObj env with
  | Some timestamps =>
      match start_time timestamps, end_time timestamps with
      | Some (ValidDate s), Some (ValidDate e) => Some (s, e)
      | _, _ => None
      end
  | None => None
  end.

(** The callback that [queries.map] runs for one sub-query, up to its
    call of the service. *)
Definition subQueryTask (env : Env) (st : State) (window : Z * Z)
    (pageType : option string) (it : Query) : option (Request * QueryMetadata) :=
  let (startISOTimestamp, endISOTimestamp) := window in
  let type := queryType (panelSchema env) in
  let (query1, metadata1) :=
    replaceQueryValue env st (q_query it) startISOTimestamp endISOTimestamp in
  match applyAdhocVariables env query1 type with
  | None => None
  | Some (query2, metadata2) =>
      let query := query2 in
      let metadata :=
        mkMetadata (q_query it) query startISOTimestamp endISOTimestamp type
          (metadata1 ++ metadata2)%list in
      Some (if (type =? "promql")%string
            then metrics_query_range (org_identifier env) query
                   startISOTimestamp endISOTimestamp
            else search (org_identifier env) query
                   startISOTimestamp endISOTimestamp pageType,
            metadata)
  end.

(** [loadData] up to its [await]. *)
Definition loadData_start (env : Env) (st : State) : State * Started :=
  let st := set_isDirty false st in
  if isQueryDependentOnTheVariables env && negb (canRunQueryBasedOnVariables env)
  then (st, ReturnedEarly)
  else
    match queries (panelSchema env) with
    | [] => (st, ThrewEarly)          (* [queries[0].query] *)
    | first :: _ =>
        match timeWindow env with
        | None => (st, ReturnedEarly)
        | Some window =>
            let st := set_loading true st in
            let type :=
              if (queryType (panelSchema env) =? "promql")%string
              then "promql" else "sql" in
            (st, Awaiting type
                   (map (subQueryTask env st window (q_stream_type first))
                      (queries (panelSchema env))))
        end
    end.

(** The [then] and [catch] handlers of one call. *)
Definition thenHandler (md : QueryMetadata) (res : Payload) (st : State)
    : State * option SubResult :=
  (set_errorDetail "" st, Some (mkSubResult res md)).

Definition catchHandler (type : string) (error : ApiError) (st : State)
    : State * option SubResult :=
  (processApiError error type st, None).

Definition onSettled (type : string) (md : QueryMetadata) (outcome : Settled)
    (st : State) : State * option SubResult :=
  match outcome with
  | Fulfilled res => thenHandler md res st
  | Rejected error => catchHandler type error st
  end.

(** [queryResults.map(it => it.<field>)]: reading a field of [undefined]
    throws. *)
Fixpoint mapField {A : Type} (field : SubResult -> A)
    (queryResults : list (option SubResult)) : option (list A) :=
  match queryResults with
  | [] => Some []
  | Some it :: rest =>
      match mapField field rest with
      | Some l => Some (field it :: l)
      | None => None
      end
  | None :: _ => None
  end.

(** [loadData] behind its [await], on the values of [Promise.all]; a
    sub-query whose call was rejected left [undefined] ([None]) there. *)
Definition loadData_resume (queryResults : list (option SubResult)) (st : State)
    : State * Outcome :=
  let st := set_loading false st in
  match mapField sr_result queryResults with
  | None => (st, Thrown)
  | Some results =>
      let st := set_data results st in
      match mapField sr_metadata queryResults with
      | None => (st, Thrown)
      | Some ledgers => (set_metadata (Some ledgers) st, Returned)
      end
  end.

(** *** One attempt, with the order in which its calls settle *)

Fixpoint set_nth {A : Type} (n : nat) (x : A) (l : list A) : list A :=
  match n, l with
  | _, [] => []
  | O, _ :: rest => x :: rest
  | S k, y :: rest => y :: set_nth k x rest
  end.

(** The promise of sub-query [i] settles: its handler runs on the state
    and fills slot [i].  A promise settles once. *)
Definition settle (type : string) (tasks : list (option (Request * QueryMetadata)))
    (acc : State * list (option (option SubResult))) (ev : nat * Settled)
    : State * list (option (option SubResult)) :=
  let (st, slots) := acc in
  match nth_error tasks (fst ev), nth_error slots (fst ev) with
  | Some (Some (_, md)), Some None =>
      let (st', value) := onSettled type md (snd ev) st in
      (st', set_nth (fst ev) (Some value) slots)
  | _, _ => acc
  end.

(** The values of [Promise.all], once every promise has resolved. *)
Fixpoint Promise_all {A : Type} (slots : list (option A)) : option (list A) :=
  match slots with
  | [] => Some []
  | Some v :: rest =>
      match Promise_all rest with
      | Some l => Some (v :: l)
      | None => None
      end
  | None :: _ => None
  end.

Definition dispatched (started : Started) : list Request :=
  match started with
  | Awaiting _ tasks =>
      flat_map (fun t => match t with
                         | Some (request, _) => [request]
                         | None => []
                         end) tasks
  | _ => []
  end.

(** One call of [loadData] whose service calls settle in the order of
    [schedule] (pairs of a sub-query index and a settlement): the final
    state, the calls made, and how the promise of [loadData] ends. *)
Definition loadData (env : Env) (schedule : list (nat * Settled)) (st : State)
    : State * list Request * Outcome :=
  let (st, started) := loadData_start env st in
  match started with
  | ReturnedEarly => (st, [], Returned)
  | ThrewEarly => (st, [], Thrown)
  | Awaiting type tasks =>
      let (st, slots) :=
        fold_left (settle type tasks) schedule (st, map (fun _ => None) tasks) in
      if forallb (fun t => match t with Some _ => true | None => false end) tasks
      then
        match Promise_all slots with
        | Some queryResults =>
            let (st, outcome) := loadData_resume queryResults st in
            (st, dispatched started, outcome)
        | None => (st, dispatched started, Pending)
        end
      else (st, dispatched started, Thrown)   (* a callback threw *)
  end.

(** *** The watchers *)

Definition hasAtLeastOneQuery (env : Env) : bool :=
  existsb (fun q => negb (q_query q =? "")%string) (queries (panelSchema env)).

Definition firstQueryExists (env : Env) : bool :=
  match queries (panelSchema env) with
  | first :: _ => negb (q_query first =? "")%string
  | [] => false
  end.

Definition hasQueries (env : Env) : bool :=
  negb (List.length (queries (panelSchema env)) =? 0)%nat.

(** The comparison of one variable with the baseline:
    [it.value == oldValue?.value && oldValue?.value != ""]. *)
Definition sameAsBaseline (baseline : list NamedValue) (name : string)
    (value : VarValue) : bool :=
  match find (fun it2 => (nv_name it2 =? name)%string) baseline with
  | Some oldValue =>
      looseEq value (nv_value oldValue) &&
      negb (looseEq (nv_value oldValue) (Scalar ""))
  | None => false       (* [undefined]: no string or array equals it *)
  end.

Definition shouldITriggerTheQueryForOtherVariables (env : Env) (st : State)
    : State * bool :=
  match dependentVariables env with
  | None => (st, false)
  | Some newDependentVariablesData =>
      if (List.length newDependentVariablesData =? 0)%nat then (st, false)
      else
        let isAllValuesSame :=
          forallb
            (fun it => sameAsBaseline (currentDependentVariablesData st)
                         (var_name it) (var_value it))
            newDependentVariablesData in
        if negb isAllValuesSame then
          (set_currentDependentVariablesData
             (map named_of_variable newDependentVariablesData) st, true)
        else (st, false)
  end.

(** [None] when [adHocVariables.length] throws. *)
Definition shouldITriggerTheQueryForAdHocVariables (env : Env) (st : State)
    : option (State * bool) :=
  match adHocFiltersOf env with
  | None => None
  | Some adHocVariables =>
      if negb (List.length adHocVariables =?
               List.length (currentAdHocVariablesData st))%nat then
        Some (set_currentAdHocVariablesData
                (map named_of_filter adHocVariables) st, true)
      else if (List.length adHocVariables =? 0)%nat then Some (st, false)
      else
        let isAllValuesSame :=
          forallb
            (fun it => sameAsBaseline (currentAdHocVariablesData st)
                         (f_name it) (Scalar (f_value it)))
            adHocVariables in
        if negb isAllValuesSame then
          Some (set_currentAdHocVariablesData
                  (map named_of_filter adHocVariables) st, true)
        else Some (st, false)
  end.

(** What makes the composable run: the three watchers, the intersection
    observer and a call of the returned [loadData]. *)
Inductive Event : Type :=
| PanelOrTimeChanged
| Intersection (isIntersecting : bool)
| VariablesChanged
| LoadDataCalled.

(** The synchronous reaction to an event in the environment [env] (the
    inputs as they are after the change); [None] when [loadData] is not
    called. *)
Definition react (env : Env) (e : Event) (st : State) : State * option Started :=
  match e with
  | PanelOrTimeChanged =>
      let st := set_isDirty true st in
      if isVisible st && isDirty st && hasQueries env && firstQueryExists env
      then let (st, started) := loadData_start env st in (st, Some started)
      else (st, None)
  | Intersection isIntersecting =>
      if Bool.eqb isIntersecting (isVisible st) then (st, None)
      else
        let st := set_isVisible isIntersecting st in
        if isVisible st && isDirty st && hasQueries env && hasAtLeastOneQuery env
        then let (st, started) := loadData_start env st in (st, Some started)
        else (st, None)
  | VariablesChanged =>
      if negb (hasQueries env) then (st, None)
      else
        let (st, other) := shouldITriggerTheQueryForOtherVariables env st in
        match shouldITriggerTheQueryForAdHocVariables env st with
        | None => (st, None)
        | Some (st, adHoc) =>
            if other || adHoc then
              let st := set_isDirty true st in
              if isVisible st
              then let (st, started) := loadData_start env st in (st, Some started)
              else (st, None)
            else (st, None)
        end
  | LoadDataCalled =>
      let (st, started) := loadData_start env st in (st, Some started)
  end.

Definition calls (started : option Started) : list Request :=
  match started with
  | Some s => dispatched s
  | None => []
  end.

(** The transitions of a panel: an event, the handler of a settled call of
    some attempt in flight, or the rest of [loadData] behind its [await].
    The label lists the calls of the execution service the transition
    makes. *)
Inductive Step (env : Env) : State -> list Request -> State -> Prop :=
| step_event : forall e st,
    Step env st (calls (snd (react env e st))) (fst (react env e st))
| step_settled : forall type md outcome st,
    Step env st [] (fst (onSettled type md outcome st))
| step_resume : forall queryResults st,
    Step env st [] (fst (loadData_resume queryResults st)).

End Loader.

(** * The statements of the specification *)

(** ** The bucket table *)

(** A breakpoint of the table: [interval <= bound] (or [interval < bound]
    when strict) gives [bucket]. *)
Record Breakpoint : Type := mkBreakpoint {
  bp_strict : bool;
  bp_bound : Q;
  bp_bucket : IntervalSpec
}.

Definition upTo (bound : Q) (value : Z) (unit : string) : Breakpoint :=
  mkBreakpoint false bound (mkInterval value unit).

Definition below (bound : Q) (value : Z) (unit : string) : Breakpoint :=
  mkBreakpoint true bound (mkInterval value unit).

Definition breakpoints : list Breakpoint :=
  [ upTo 10 1 "ms"; upTo 15 10 "ms"; upTo 35 20 "ms"; upTo 75 50 "ms";
    upTo 150 100 "ms"; upTo 350 200 "ms"; upTo 750 500 "ms";
    upTo 1500 1 "s"; upTo 3500 2 "s"; upTo 7500 5 "s"; upTo 12500 10 "s";
    upTo 17500 15 "s"; upTo 25000 20 "s"; upTo 45000 30 "s";
    upTo 90000 1 "m"; upTo 210000 2 "m"; upTo 450000 5 "m";
    upTo 750000 10 "m"; upTo 1050000 15 "m"; upTo 1500000 20 "m";
    upTo 2700000 30 "m";
    upTo 5400000 1 "h"; upTo 9000000 2 "h"; upTo 16200000 3 "h";
    upTo 32400000 6 "h"; upTo 86400000 12 "h"; upTo 172800000 24 "h";
    upTo 604800000 24 "h";
    upTo 1814400000 1 "w";
    below 3628800000 30 "d" ].

Definition fallbackBucket : IntervalSpec := mkInterval 1 "y".

(** The raw interval is within the breakpoint. *)
Definition within (x : number) (b : Breakpoint) : bool :=
  if bp_strict b then num_lt x (bp_bound b) else num_le x (bp_bound b).

(** The buckets of the table. *)
Definition bucketTable : list IntervalSpec :=
  (map bp_bucket breakpoints ++ [fallbackBucket])%list.



(** ** The unit table of the specification *)
Definition unitSecondsTable : list (string * Q) :=
  [ ("ms", 1 / 1000); ("s", 1); ("m", 60); ("h", 3600); ("d", 86400);
    ("w", 604800); ("y", 7257600) ]%Q.

Definition unitSeconds (unit : string) : option Q :=
  option_map snd (find (fun row => (fst row =? unit)%string) unitSecondsTable).



(** ** Literal replacement: every occurrence of the token met from left to
    right gives way to the value, and the other characters stay. *)
Inductive LiteralReplace (token value : string) : string -> string -> Prop :=
| lr_end : LiteralReplace token value "" ""
| lr_occurrence : forall rest out,
    LiteralReplace token value rest out ->
    LiteralReplace token value (token ++ rest) (value ++ out)
| lr_other : forall c rest out,
    prefix token (String c rest) = false ->
    LiteralReplace token value rest out ->
    LiteralReplace token value (String c rest) (String c out).

(** The text has no dollar sign. *)
Fixpoint dollarFree (s : string) : bool :=
  match s with
  | EmptyString => true
  | String c rest => negb (c =? "$")%char && dollarFree rest
  end.

(** ** The dependency gate: some variable that is no ad-hoc filter and whose
    token a sub-query holds is still loading. *)
Definition waitsForVariable (env : Env) : Prop :=
  exists values v,
    variablesData env = Some values /\ In v values /\
    isAdHoc v = false /\
    referencedBy (queries (panelSchema env)) v = true /\
    var_isLoading v = true.


(** ** The handlers of a run, by what they do to the state *)
Definition isRejected (outcome : Settled) : Prop :=
  match outcome with
  | Rejected _ => True
  | Fulfilled _ => False
  end.

(** Every call of the attempt settles once: the indices of the schedule are
    those of the sub-queries, each of them once. *)
Definition settlesEachOnce {A : Type} (tasks : list A)
    (schedule : list (nat * Settled)) : Prop :=
  NoDup (map fst schedule) /\
  (forall i, In i (map fst schedule) <-> (i < List.length tasks)%nat).

(** What the handler of a settled call does to the state: the metadata of
    the sub-query plays no part in it. *)
Definition afterHandler (type : string) (outcome : Settled) (st : State) : State :=
  match outcome with
  | Fulfilled _ => set_errorDetail "" st
  | Rejected error => processApiError error type st
  end.

(** ** The inputs of the examples *)

(** A panel with one query on the variable [region]. *)
Definition regionEnv (value : string) (isLoading : bool) : Env :=
  mkEnv (mkPanel "sql" [mkQuery "SELECT * FROM t WHERE r=$region" None])
        (Some (mkTime (Some (ValidDate 0)) (Some (ValidDate 3600000))))
        (Some [mkVariable "region" "query_values" (Scalar value) isLoading])
        (Some 1000) "default" None.

Definition regionState (baseline : string) : State :=
  mkState [] false "" None false true [mkNamed "region" (Scalar baseline)] [].

(** A metrics panel with two sub-queries and no variables, over one hour on
    a surface of 1000 pixels. *)
Definition twoQueryEnv : Env :=
  mkEnv (mkPanel "promql" [mkQuery "up" None; mkQuery "rate(http_requests[5m])" None])
        (Some (mkTime (Some (ValidDate 0)) (Some (ValidDate 3600000))))
        (Some []) (Some 1000) "default" None.


Definition freshState : State := mkState [] false "" None true true [] [].

Definition boom : ApiError := mkApiError None (Some "boom").

(** Stand-ins for the parameters of the loader. *)
Definition noFraction (q : Q) : string := "".
Definition keepPromQl (query name value operator : string) : string := query.
Definition keepSql (query : string) (filters : list AdHocFilter) : string := query.

(** ** Further notions for the properties of the code *)

(** The length of a bucket in seconds. *)
Definition bucketSeconds (bucket : IntervalSpec) : Q :=
  getTimeInSecondsBasedOnUnit (inject_Z (iv_value bucket)) (iv_unit bucket).





(** A settled call that succeeded. *)
Definition isFulfilled (outcome : Settled) : Prop :=
  match outcome with
  | Fulfilled _ => True
  | Rejected _ => False
  end.

(** A store without values, on the panel with two sub-queries. *)
Definition noStoreEnv : Env :=
  mkEnv (mkPanel "promql" [mkQuery "up" None; mkQuery "rate(http_requests[5m])" None])
        (Some (mkTime (Some (ValidDate 0)) (Some (ValidDate 3600000))))
        None (Some 1000) "default" None.

(** A panel without sub-queries. *)
Definition emptyPanelEnv : Env :=
  mkEnv (mkPanel "promql" [])
        (Some (mkTime (Some (ValidDate 0)) (Some (ValidDate 3600000))))
        (Some []) (Some 1000) "default" None.

(** A store with one ad-hoc filter variable of one usable filter. *)
Definition adHocEnv (type : string) : Env :=
  mkEnv (mkPanel type [mkQuery "up" None])
        (Some (mkTime (Some (ValidDate 0)) (Some (ValidDate 3600000))))
        (Some [mkVariable "filters" "ad-hoc-filters"
                 (Filters [mkFilter "namespace" "=" "prod"; mkFilter "" "=" "x"])
                 false])
        (Some 1000) "default" None.

(** * Theorems *)

(** ** The bucket table *)

(** [find] returns the first element that satisfies the test. *)
Lemma find_first {A : Type} (f : A -> bool) (l : list A) :
  match find f l with
  | Some b =>
      exists pre post,
        l = (pre ++ b :: post)%list /\
        Forall (fun a => f a = false) pre /\ f b = true
  | None => Forall (fun a => f a = false) l
  end.
Proof.
  induction l as [|a l IH]; simpl.
  - constructor.
  - destruct (f a) eqn:Ha.
    + exists [], l. repeat split; auto.
    + destruct (find f l) as [b|].
      * destruct IH as (pre & post & -> & Hpre & Hb).
        exists (a :: pre), post. repeat split; auto.
      * constructor; assumption.
Qed.

(** The cascade of [formatInterval] is the lookup of the first breakpoint. *)
Lemma formatInterval_find (x : number) :
  formatInterval x =
  match find (within x) breakpoints with
  | Some b => bp_bucket b
  | None => fallbackBucket
  end.
Proof.
  unfold formatInterval, breakpoints, within, upTo, below, fallbackBucket.
  cbn [find bp_strict bp_bound bp_bucket].
  repeat match goal with
         | |- context [num_le x ?c] => destruct (num_le x c); [reflexivity|]
         end.
  destruct (num_lt x 3628800000); reflexivity.
Qed.

Lemma formatInterval_in_table (x : number) : In (formatInterval x) bucketTable.
Proof.
  rewrite formatInterval_find. unfold bucketTable.
  pose proof (find_first (within x) breakpoints) as H.
  destruct (find (within x) breakpoints) as [b|].
  - destruct H as (pre & post & E & _ & _).
    apply in_or_app. left. rewrite E. apply in_map, in_or_app.
    right. left. reflexivity.
  - apply in_or_app. right. left. reflexivity.
Qed.

(** C2. For every raw interval, [formatInterval] returns the bucket of the
    first breakpoint of the table that the interval is within ([<=] the
    bound, [<] for the 30d bucket), and the 1y bucket when it is within
    none; 1500 is in the 1s bucket and the next value is not, 172800000 and
    604800000 both give 24h, and 3628800000 itself falls to 1y. *)
Theorem formatInterval_first_breakpoint :
  (forall x : number,
      (exists pre b post,
          breakpoints = (pre ++ b :: post)%list /\
          Forall (fun b' => within x b' = false) pre /\
          within x b = true /\
          formatInterval x = bp_bucket b)
      \/ (Forall (fun b => within x b = false) breakpoints /\
          formatInterval x = fallbackBucket))
  /\ formatInterval (Finite 1500) = mkInterval 1 "s"
  /\ formatInterval (Finite (1500001 # 1000)) = mkInterval 2 "s"
  /\ formatInterval (Finite 750) = mkInterval 500 "ms"
  /\ formatInterval (Finite 172800000) = mkInterval 24 "h"
  /\ formatInterval (Finite 604800000) = mkInterval 24 "h"
  /\ formatInterval (Finite 1814400000) = mkInterval 1 "w"
  /\ formatInterval (Finite (3628800000 - 1)) = mkInterval 30 "d"
  /\ formatInterval (Finite 3628800000) = mkInterval 1 "y"
  /\ formatInterval NaN = mkInterval 1 "y".
Proof.
  split; [|repeat split; reflexivity].
  intros x. rewrite formatInterval_find.
  pose proof (find_first (within x) breakpoints) as H.
  destruct (find (within x) breakpoints) as [b|].
  - left. destruct H as (pre & post & E & Hpre & Hb).
    exists pre, b, post. auto.
  - right. auto.
Qed.

Lemma within_finite (q : Q) (b : Breakpoint) :
  within (Finite q) b = true <->
  if bp_strict b then (q < bp_bound b)%Q else (q <= bp_bound b)%Q.
Proof.
  unfold within. destruct (bp_strict b); simpl.
  - rewrite negb_true_iff. split.
    + intros H. apply Qnot_le_lt. intros Hle.
      apply Qle_bool_iff in Hle. congruence.
    + intros H. destruct (Qle_bool (bp_bound b) q) eqn:E; [|reflexivity].
      apply Qle_bool_iff in E. exfalso. eapply Qlt_not_le; eauto.
  - apply Qle_bool_iff.
Qed.

(** ** The raw interval *)






(** ** The rate window *)

Lemma Math_max_Qmax (a b : Q) : (Math_max a b == Qmax a b)%Q.
Proof.
  unfold Math_max. destruct (Qle_bool a b) eqn:E.
  - apply Qle_bool_iff in E. symmetry. apply Q.max_r. exact E.
  - symmetry. apply Q.max_l.
    destruct (Qlt_le_dec b a) as [H|H].
    + apply Qlt_le_weak. exact H.
    + apply Qle_bool_iff in H. congruence.
Qed.

(** [getTimeInSecondsBasedOnUnit] multiplies by the factor of the unit
    table. *)
Lemma getTimeInSecondsBasedOnUnit_table (seconds : Q) (unit : string) (factor : Q) :
  unitSeconds unit = Some factor ->
  (getTimeInSecondsBasedOnUnit seconds unit == seconds * factor)%Q.
Proof.
  unfold unitSeconds, unitSecondsTable, getTimeInSecondsBasedOnUnit.
  cbn [find fst snd option_map].
  repeat match goal with
         | |- context [(?u =? unit)%string] =>
             rewrite (String.eqb_sym u unit);
             destruct (unit =? u)%string;
             [ cbn [option_map snd]; intros [= <-]; field |]
         end.
  discriminate.
Qed.

Lemma formatInterval_unit_in_table (x : number) :
  unitSeconds (iv_unit (formatInterval x)) <> None.
Proof.
  pose proof (formatInterval_in_table x) as H.
  unfold bucketTable, breakpoints, fallbackBucket in H. simpl in H.
  repeat (destruct H as [<- | H]; [discriminate|]).
  contradiction.
Qed.

(** C5. The rate window is [max(bucketSeconds + scrape, 4 * scrape)], where
    [scrape] is the organization setting or 15 when it is unset and
    [bucketSeconds] is the value of the bucket times the factor of its unit
    in the table ms = 1/1000, s = 1, m = 60, h = 3600, d = 86400,
    w = 604800, y = 7257600. *)
Theorem rateInterval_formula (setting : option Q) (bucket : IntervalSpec) (factor : Q) :
  unitSeconds (iv_unit bucket) = Some factor ->
  (rateInterval setting bucket ==
   Qmax (inject_Z (iv_value bucket) * factor +
         match setting with Some s => s | None => 15 end)
        (4 * match setting with Some s => s | None => 15 end))%Q.
Proof.
  intros Hunit. unfold rateInterval, scrapeIntervalOf.
  rewrite Math_max_Qmax.
  rewrite (getTimeInSecondsBasedOnUnit_table _ _ _ Hunit).
  reflexivity.
Qed.

Lemma rateInterval_formula_witness :
  unitSeconds "y" = Some 7257600%Q /\
  (rateInterval None (mkInterval 1 "y") == Qmax (inject_Z 1 * 7257600 + 15) (4 * 15))%Q.
Proof.
  split; [reflexivity|].
  apply (rateInterval_formula None (mkInterval 1 "y") 7257600%Q). reflexivity.
Defined.

(** ** The rate window formatter *)

Lemma append_nil_r (s : string) : s ++ "" = s.
Proof. induction s; simpl; congruence. Qed.

Lemma append_assoc (s t u : string) : (s ++ t) ++ u = s ++ (t ++ u).
Proof. induction s; simpl; congruence. Qed.







(** ** The change detection of the bound variables *)

Lemma looseEq_empty_baseline (old : VarValue) :
  old = Scalar "" -> looseEq old (Scalar "") = true.
Proof. intros ->. reflexivity. Qed.

(** A variable whose baseline value is the empty string never counts as
    the same. *)
Lemma sameAsBaseline_empty (baseline : list NamedValue) (name : string)
    (value : VarValue) (old : NamedValue) :
  find (fun it2 => (nv_name it2 =? name)%string) baseline = Some old ->
  nv_value old = Scalar "" ->
  sameAsBaseline baseline name value = false.
Proof.
  intros Hfind Hold. unfold sameAsBaseline. rewrite Hfind.
  rewrite (looseEq_empty_baseline _ Hold). apply andb_false_r.
Qed.

(** C3, as the code has it.  When a dependent variable (no ad-hoc filter,
    its token in some query) has the empty string as its value in the
    baseline, the decision on the bound variables reports a change and
    replaces the baseline by the new dependent variables, whatever the new
    value of the variable is. *)
Theorem empty_baseline_reports_change (env : Env) (st : State)
    (newDependentVariablesData : list VariableBinding)
    (it : VariableBinding) (old : NamedValue) :
  dependentVariables env = Some newDependentVariablesData ->
  In it newDependentVariablesData ->
  find (fun it2 => (nv_name it2 =? var_name it)%string)
       (currentDependentVariablesData st) = Some old ->
  nv_value old = Scalar "" ->
  shouldITriggerTheQueryForOtherVariables env st =
    (set_currentDependentVariablesData
       (map named_of_variable newDependentVariablesData) st, true).
Proof.
  intros Hdep Hin Hfind Hold.
  unfold shouldITriggerTheQueryForOtherVariables. rewrite Hdep.
  destruct newDependentVariablesData as [|x l]; [contradiction|].
  cbn [List.length Nat.eqb].
  assert (Hall :
    forallb (fun it0 => sameAsBaseline (currentDependentVariablesData st)
                          (var_name it0) (var_value it0)) (x :: l) = false).
  { destruct (forallb _ (x :: l)) eqn:E; [|reflexivity].
    rewrite forallb_forall in E. specialize (E it Hin).
    rewrite (sameAsBaseline_empty _ _ _ _ Hfind Hold) in E. discriminate. }
  rewrite Hall. reflexivity.
Qed.

Lemma empty_baseline_reports_change_witness :
  shouldITriggerTheQueryForOtherVariables
    (regionEnv "us-east" false) (regionState "") =
  (set_currentDependentVariablesData [mkNamed "region" (Scalar "us-east")]
     (regionState ""), true).
Proof.
  apply (empty_baseline_reports_change (regionEnv "us-east" false) (regionState "")
           [mkVariable "region" "query_values" (Scalar "us-east") false]
           (mkVariable "region" "query_values" (Scalar "us-east") false)
           (mkNamed "region" (Scalar ""))).
  - reflexivity.
  - simpl. left. reflexivity.
  - reflexivity.
  - reflexivity.
Defined.

(** C3, as the specification states it, fails: with the empty string in the
    baseline and a new value that differs, the decision is a change. *)
Lemma empty_baseline_is_not_ignored :
  snd (shouldITriggerTheQueryForOtherVariables
         (regionEnv "us-east" false) (regionState "")) <> false.
Proof. vm_compute. discriminate. Qed.

(** ** The gates of loadData *)

Lemma filter_length_lt {A : Type} (p : A -> bool) (l : list A) (x : A) :
  In x l -> p x = false -> (List.length (filter p l) < List.length l)%nat.
Proof.
  induction l as [|a l IH]; simpl; [contradiction|].
  intros [-> | Hin] Hp.
  - rewrite Hp. pose proof (filter_length_le p l). lia.
  - specialize (IH Hin Hp). destruct (p a); simpl; lia.
Qed.

Lemma filter_length_all {A : Type} (p : A -> bool) (l : list A) :
  (forall x, In x l -> p x = true) -> filter p l = l.
Proof.
  induction l as [|a l IH]; simpl; intros H; [reflexivity|].
  rewrite (H a) by auto. f_equal. apply IH. auto.
Qed.

(** A variable that the gate waits for is among the dependent variables. *)
Lemma waitsForVariable_dependent (env : Env) :
  waitsForVariable env ->
  exists l v, dependentVariables env = Some l /\ In v l /\ var_isLoading v = true.
Proof.
  intros (values & v & Hvalues & Hin & Hadhoc & Href & Hloading).
  unfold dependentVariables. rewrite Hvalues.
  eexists _, v. split; [reflexivity|]. split; [|exact Hloading].
  apply filter_In. split; [|exact Href].
  apply filter_In. split; [exact Hin|]. rewrite Hadhoc. reflexivity.
Qed.

Lemma gate_closed (env : Env) :
  waitsForVariable env ->
  isQueryDependentOnTheVariables env && negb (canRunQueryBasedOnVariables env) = true.
Proof.
  intros H. destruct (waitsForVariable_dependent env H) as (l & v & Hdep & Hin & Hload).
  unfold isQueryDependentOnTheVariables, canRunQueryBasedOnVariables.
  rewrite Hdep.
  assert (Hlen : (0 < List.length l)%nat) by (destruct l; simpl in *; [contradiction|lia]).
  apply Nat.ltb_lt in Hlen. rewrite Hlen. simpl.
  apply negb_true_iff, Nat.eqb_neq.
  assert (Hp : negb (var_isLoading v) = false) by (rewrite Hload; reflexivity).
  pose proof (filter_length_lt (fun it => negb (var_isLoading it)) l v Hin Hp).
  lia.
Qed.

Lemma gate_open (env : Env) :
  (forall values v,
      variablesData env = Some values -> In v values ->
      isAdHoc v = false -> referencedBy (queries (panelSchema env)) v = true ->
      var_isLoading v = false) ->
  isQueryDependentOnTheVariables env && negb (canRunQueryBasedOnVariables env) = false.
Proof.
  intros H. unfold isQueryDependentOnTheVariables, canRunQueryBasedOnVariables.
  unfold dependentVariables. destruct (variablesData env) as [values|] eqn:E;
    [|reflexivity].
  destruct (0 <? List.length _)%nat; [|reflexivity]. simpl.
  rewrite filter_length_all.
  - rewrite Nat.eqb_refl. reflexivity.
  - intros x Hx. apply filter_In in Hx. destruct Hx as [Hx Href].
    apply filter_In in Hx. destruct Hx as [Hx Hadhoc].
    apply negb_true_iff in Hadhoc.
    rewrite (H values x eq_refl Hx Hadhoc Href). reflexivity.
Qed.

Section LoaderFacts.

Variable fractionToString : Q -> string.
Variable addLabelToPromQlQuery : string -> string -> string -> string -> string.
Variable addLabelsToSQlQuery : string -> list AdHocFilter -> string.

Local Notation start :=
  (loadData_start fractionToString addLabelToPromQlQuery addLabelsToSQlQuery).
Local Notation run :=
  (loadData fractionToString addLabelToPromQlQuery addLabelsToSQlQuery).
Local Notation reaction :=
  (react fractionToString addLabelToPromQlQuery addLabelsToSQlQuery).
Local Notation Transition :=
  (Step fractionToString addLabelToPromQlQuery addLabelsToSQlQuery).

Lemma loadData_start_waits (env : Env) (st : State) :
  waitsForVariable env -> start env st = (set_isDirty false st, ReturnedEarly).
Proof.
  intros H. unfold loadData_start. rewrite (gate_closed env H). reflexivity.
Qed.

Lemma loadData_start_calls_nothing_waiting (env : Env) (st : State) :
  waitsForVariable env ->
  dispatched (snd (start env st)) = [] /\
  loading (fst (start env st)) = loading st.
Proof.
  intros H. rewrite (loadData_start_waits env st H). split; reflexivity.
Qed.

Lemma onSettled_loading (type : string) (md : QueryMetadata) (outcome : Settled)
    (st : State) :
  loading (fst (onSettled type md outcome st)) = loading st.
Proof.
  destruct outcome; simpl; [reflexivity|].
  unfold processApiError.
  destruct ((type =? "promql")%string || (type =? "sql")%string); [|reflexivity].
  destruct (errorDetailValue error type); reflexivity.
Qed.

Lemma loadData_resume_loading (queryResults : list (option SubResult)) (st : State) :
  loading (fst (loadData_resume queryResults st)) = false.
Proof.
  unfold loadData_resume.
  destruct (mapField sr_result queryResults); [|reflexivity].
  destruct (mapField sr_metadata queryResults); reflexivity.
Qed.

Lemma shouldITriggerTheQueryForOtherVariables_loading (env : Env) (st : State) :
  loading (fst (shouldITriggerTheQueryForOtherVariables env st)) = loading st /\
  isVisible (fst (shouldITriggerTheQueryForOtherVariables env st)) = isVisible st.
Proof.
  unfold shouldITriggerTheQueryForOtherVariables.
  destruct (dependentVariables env) as [l|]; [|split; reflexivity].
  destruct (List.length l =? 0)%nat; [split; reflexivity|].
  destruct (negb _); split; reflexivity.
Qed.

Lemma shouldITriggerTheQueryForAdHocVariables_loading (env : Env) (st st' : State)
    (b : bool) :
  shouldITriggerTheQueryForAdHocVariables env st = Some (st', b) ->
  loading st' = loading st /\ isVisible st' = isVisible st.
Proof.
  unfold shouldITriggerTheQueryForAdHocVariables.
  destruct (adHocFiltersOf env) as [l|]; [|discriminate].
  destruct (negb (List.length l =? _)%nat).
  - intros [= <- <-]. split; reflexivity.
  - destruct (List.length l =? 0)%nat.
    + intros [= <- <-]. split; reflexivity.
    + destruct (negb _); intros [= <- <-]; split; reflexivity.
Qed.

(** An event in an environment whose gate is closed calls nothing and leaves
    [loading] as it is. *)
Lemma react_waiting (env : Env) (e : Event) (st : State) :
  waitsForVariable env ->
  calls (snd (reaction env e st)) = [] /\
  loading (fst (reaction env e st)) = loading st.
Proof.
  intros H. destruct e; unfold react.
  - destruct (_ && _ && _ && _).
    + rewrite (loadData_start_waits env _ H). split; reflexivity.
    + split; reflexivity.
  - destruct (Bool.eqb _ _); [split; reflexivity|].
    destruct (_ && _ && _ && _).
    + rewrite (loadData_start_waits env _ H). split; reflexivity.
    + split; reflexivity.
  - destruct (negb (hasQueries env)); [split; reflexivity|].
    pose proof (shouldITriggerTheQueryForOtherVariables_loading env st) as [Hl _].
    destruct (shouldITriggerTheQueryForOtherVariables env st) as [st1 other].
    simpl in Hl.
    destruct (shouldITriggerTheQueryForAdHocVariables env st1) as [[st2 adHoc]|] eqn:E;
      [|split; [reflexivity|exact Hl]].
    apply shouldITriggerTheQueryForAdHocVariables_loading in E.
    destruct E as [Hl2 _].
    destruct (other || adHoc); [|split; [reflexivity|simpl; congruence]].
    destruct (isVisible (set_isDirty true st2)).
    + rewrite (loadData_start_waits env _ H). split; [reflexivity|].
      simpl. congruence.
    + split; [reflexivity|]. simpl. congruence.
  - rewrite (loadData_start_waits env _ H). split; reflexivity.
Qed.

(** C7. While a variable that is no ad-hoc filter, whose token is in some
    sub-query, is loading, no transition of the panel (an event, a handler
    of a call in flight, the rest of an attempt) calls the execution service
    or sets [loading]; and a store in which every such variable has loaded
    opens the gate, whatever its ad-hoc filter variables are doing. *)
Theorem never_fetch_while_loading :
  (forall env st requests st',
      waitsForVariable env ->
      Transition env st requests st' ->
      requests = [] /\ (loading st' = true -> loading st = true))
  /\
  (forall env,
      (forall values v,
          variablesData env = Some values -> In v values ->
          isAdHoc v = false -> referencedBy (queries (panelSchema env)) v = true ->
          var_isLoading v = false) ->
      isQueryDependentOnTheVariables env &&
      negb (canRunQueryBasedOnVariables env) = false).
Proof.
  split; [|exact gate_open].
  intros env st requests st' Hwait Hstep.
  destruct Hstep as [e st | type md outcome st | queryResults st].
  - destruct (react_waiting env e st Hwait) as [Hcalls Hloading].
    split; [exact Hcalls|]. rewrite Hloading. auto.
  - split; [reflexivity|]. rewrite onSettled_loading. auto.
  - split; [reflexivity|]. rewrite loadData_resume_loading. discriminate.
Qed.




(** ** The handlers of an attempt *)

Lemma onSettled_state (type : string) (md : QueryMetadata) (outcome : Settled)
    (st : State) :
  fst (onSettled type md outcome st) = afterHandler type outcome st.
Proof. destruct outcome; reflexivity. Qed.

Lemma nth_error_set_nth_other {A : Type} (i j : nat) (x : A) (l : list A) :
  i <> j -> nth_error (set_nth i x l) j = nth_error l j.
Proof.
  revert i j. induction l as [|a l IH]; intros i j Hij.
  - destruct i; reflexivity.
  - destruct i, j; simpl; try reflexivity; try congruence.
    apply IH. congruence.
Qed.

(** When every index of the schedule has its call made and its promise
    pending, and no index comes twice, every handler of the schedule runs. *)
Lemma fold_settle_state (type : string)
    (tasks : list (option (Request * QueryMetadata)))
    (schedule : list (nat * Settled)) :
  forall (st : State) (slots : list (option (option SubResult))),
    NoDup (map fst schedule) ->
    (forall i, In i (map fst schedule) ->
               nth_error slots i = Some None /\
               exists request md, nth_error tasks i = Some (Some (request, md))) ->
    fst (fold_left (settle type tasks) schedule (st, slots)) =
    fold_left (fun st ev => afterHandler type (snd ev) st) schedule st.
Proof.
  induction schedule as [|[i outcome] schedule IH]; intros st slots Hnodup Hready.
  - reflexivity.
  - cbn [fold_left]. inversion Hnodup as [|? ? Hnotin Hnodup']; subst.
    destruct (Hready i (or_introl eq_refl)) as (Hslot & request & md & Htask).
    unfold settle at 2. cbn [fst snd]. rewrite Htask, Hslot.
    pose proof (onSettled_state type md outcome st) as Hstate.
    destruct (onSettled type md outcome st) as [st' value]. simpl in Hstate.
    subst st'. apply IH; [exact Hnodup'|].
    intros j Hj. destruct (Hready j (or_intror Hj)) as (Hslotj & Htaskj).
    split; [|exact Htaskj].
    rewrite nth_error_set_nth_other; [exact Hslotj|].
    intros ->. contradiction.
Qed.

(** The error detail is that of the handler which ran last. *)
Lemma last_handler_decides (type : string) (schedule : list (nat * Settled))
    (st : State) :
  schedule <> [] ->
  errorDetail (fold_left (fun st ev => afterHandler type (snd ev) st) schedule st)
    <> "" ->
  exists pre i error,
    schedule = (pre ++ [(i, Rejected error)])%list.
Proof.
  destruct schedule as [|ev schedule] using rev_ind; [congruence|].
  intros _ H. rewrite fold_left_app in H. cbn [fold_left] in H.
  destruct ev as [i [res|error]].
  - simpl in H. congruence.
  - exists schedule, i, error. reflexivity.
Qed.

Lemma nth_error_pending {A B : Type} (tasks : list A) (i : nat) :
  (i < List.length tasks)%nat ->
  nth_error (map (fun _ => @None B) tasks) i = Some None.
Proof.
  revert i. induction tasks as [|a tasks IH]; intros i Hi; simpl in Hi; [lia|].
  destruct i; simpl; [reflexivity|]. apply IH. lia.
Qed.

Lemma nth_error_task {A : Type} (tasks : list (option A)) (i : nat) :
  Forall (fun t => t <> None) tasks ->
  (i < List.length tasks)%nat ->
  exists a, nth_error tasks i = Some (Some a).
Proof.
  intros Hall Hi.
  destruct (nth_error tasks i) as [t|] eqn:E.
  - pose proof (nth_error_In _ _ E) as Hin.
    rewrite Forall_forall in Hall. specialize (Hall t Hin).
    destruct t as [a|]; [exists a; reflexivity|congruence].
  - apply nth_error_None in E. lia.
Qed.

(** The state after the handlers of a whole attempt. *)
Lemma handlers_of_attempt (type : string)
    (tasks : list (option (Request * QueryMetadata)))
    (schedule : list (nat * Settled)) (st : State) :
  Forall (fun t => t <> None) tasks ->
  settlesEachOnce tasks schedule ->
  fst (fold_left (settle type tasks) schedule (st, map (fun _ => None) tasks)) =
  fold_left (fun st ev => afterHandler type (snd ev) st) schedule st.
Proof.
  intros Hall [Hnodup Hidx]. apply fold_settle_state; [exact Hnodup|].
  intros i Hi. apply Hidx in Hi. split.
  - apply nth_error_pending. exact Hi.
  - destruct (nth_error_task tasks i Hall Hi) as [[request md] E].
    exists request, md. exact E.
Qed.

Lemma loadData_resume_errorDetail (queryResults : list (option SubResult))
    (st : State) :
  errorDetail (fst (loadData_resume queryResults st)) = errorDetail st.
Proof.
  unfold loadData_resume.
  destruct (mapField sr_result queryResults); [|reflexivity].
  destruct (mapField sr_metadata queryResults); reflexivity.
Qed.

Lemma all_called (tasks : list (option (Request * QueryMetadata))) :
  Forall (fun t => t <> None) tasks ->
  forallb (fun t => match t with Some _ => true | None => false end) tasks = true.
Proof.
  intros H. apply forallb_forall. intros t Ht.
  rewrite Forall_forall in H. specialize (H t Ht).
  destruct t; [reflexivity|congruence].
Qed.

(** [loadData] from its [await] on, when every sub-query made its call. *)
Lemma loadData_awaiting (env : Env) (schedule : list (nat * Settled))
    (st st1 : State) (type : string)
    (tasks : list (option (Request * QueryMetadata))) :
  start env st = (st1, Awaiting type tasks) ->
  Forall (fun t => t <> None) tasks ->
  run env schedule st =
  match Promise_all
          (snd (fold_left (settle type tasks) schedule
                  (st1, map (fun _ => None) tasks))) with
  | Some queryResults =>
      (fst (loadData_resume queryResults
              (fst (fold_left (settle type tasks) schedule
                      (st1, map (fun _ => None) tasks)))),
       dispatched (Awaiting type tasks),
       snd (loadData_resume queryResults
              (fst (fold_left (settle type tasks) schedule
                      (st1, map (fun _ => None) tasks)))))
  | None =>
      (fst (fold_left (settle type tasks) schedule
              (st1, map (fun _ => None) tasks)),
       dispatched (Awaiting type tasks), Pending)
  end.
Proof.
  intros Hstart Hall. unfold loadData. rewrite Hstart.
  destruct (fold_left _ _ _) as [st2 slots]. cbn [fst snd].
  rewrite (all_called tasks Hall).
  destruct (Promise_all slots) as [queryResults|]; [|reflexivity].
  destruct (loadData_resume queryResults st2); reflexivity.
Qed.

Lemma loadData_start_tasks (env : Env) (st st1 : State) (type : string)
    (tasks : list (option (Request * QueryMetadata))) :
  start env st = (st1, Awaiting type tasks) -> tasks <> [].
Proof.
  unfold loadData_start. destruct (_ && _); [discriminate|].
  destruct (queries (panelSchema env)) as [|q qs]; [discriminate|].
  destruct (timeWindow env); [|discriminate].
  intros [= _ _ <-]. discriminate.
Qed.

(** C10. The handler of a call that succeeds sets [errorDetail] to the
    empty string, whatever it held, and contributes its result.  Hence,
    after an attempt every call of which settles once, [errorDetail] is not
    empty only if the handler of a failed call ran behind the handlers of
    all the calls that succeeded: on the panel with two sub-queries a
    failure that settles behind the success leaves its message, and a
    success that settles behind the failure erases it. *)
Theorem success_resets_errorDetail :
  (forall md res st,
      errorDetail (fst (thenHandler md res st)) = "" /\
      snd (thenHandler md res st) = Some (mkSubResult res md))
  /\
  (forall env schedule st st1 type tasks,
      start env st = (st1, Awaiting type tasks) ->
      Forall (fun t => t <> None) tasks ->
      settlesEachOnce tasks schedule ->
      errorDetail (fst (fst (run env schedule st))) <> "" ->
      exists pre i error post,
        schedule = (pre ++ (i, Rejected error) :: post)%list /\
        Forall (fun ev => isRejected (snd ev)) post)
  /\ errorDetail
       (fst (fst (run twoQueryEnv [(0%nat, Fulfilled "r0"); (1%nat, Rejected boom)]
                    freshState))) = "boom"
  /\ errorDetail
       (fst (fst (run twoQueryEnv [(1%nat, Rejected boom); (0%nat, Fulfilled "r0")]
                    freshState))) = "".
Proof.
  split; [intros; split; reflexivity|].
  split; [|split; reflexivity].
  intros env schedule st st1 type tasks Hstart Hall Hvalid Herr.
  assert (Hhandlers :
    errorDetail (fst (fst (run env schedule st))) =
    errorDetail (fold_left (fun st ev => afterHandler type (snd ev) st) schedule st1)).
  { rewrite (loadData_awaiting env schedule st st1 type tasks Hstart Hall).
    rewrite <- (handlers_of_attempt type tasks schedule st1 Hall Hvalid).
    destruct (Promise_all _); cbn [fst]; [|reflexivity].
    apply loadData_resume_errorDetail. }
  rewrite Hhandlers in Herr.
  assert (Hsched : schedule <> []).
  { pose proof (loadData_start_tasks env st st1 type tasks Hstart) as Hne.
    destruct Hvalid as [_ Hidx]. destruct tasks as [|t tasks]; [congruence|].
    intros ->. specialize (Hidx 0%nat). simpl in Hidx.
    apply Hidx. lia. }
  destruct (last_handler_decides type schedule st1 Hsched Herr)
    as (pre & i & error & E).
  exists pre, i, error, []. split; [exact E|constructor].
Qed.

(** ** A rejected call *)

Lemma onSettled_value (type : string) (md : QueryMetadata) (outcome : Settled)
    (st : State) :
  snd (onSettled type md outcome st) =
  match outcome with
  | Fulfilled res => Some (mkSubResult res md)
  | Rejected _ => None
  end.
Proof. destruct outcome; reflexivity. Qed.

Lemma nth_error_set_nth_same {A : Type} (i : nat) (x y : A) (l : list A) :
  nth_error l i = Some y -> nth_error (set_nth i x l) i = Some x.
Proof.
  revert i. induction l as [|a l IH]; intros i H.
  - destruct i; discriminate.
  - destruct i; simpl in *; [reflexivity|]. apply IH. exact H.
Qed.

Lemma set_nth_length {A : Type} (i : nat) (x : A) (l : list A) :
  List.length (set_nth i x l) = List.length l.
Proof.
  revert i. induction l as [|a l IH]; intros i; destruct i; simpl; auto.
Qed.

Lemma settle_untouched (type : string)
    (tasks : list (option (Request * QueryMetadata)))
    (acc : State * list (option (option SubResult))) (ev : nat * Settled) (j : nat) :
  j <> fst ev ->
  nth_error (snd (settle type tasks acc ev)) j = nth_error (snd acc) j.
Proof.
  intros Hj. destruct acc as [st slots]. unfold settle.
  destruct (nth_error tasks (fst ev)) as [[[request md]|]|]; try reflexivity.
  destruct (nth_error slots (fst ev)) as [[v|]|]; try reflexivity.
  destruct (onSettled type md (snd ev) st) as [st' value]. cbn [snd].
  apply nth_error_set_nth_other. congruence.
Qed.

Lemma fold_settle_untouched (type : string)
    (tasks : list (option (Request * QueryMetadata)))
    (schedule : list (nat * Settled)) :
  forall (acc : State * list (option (option SubResult))) (j : nat),
    ~ In j (map fst schedule) ->
    nth_error (snd (fold_left (settle type tasks) schedule acc)) j =
    nth_error (snd acc) j.
Proof.
  induction schedule as [|ev schedule IH]; intros acc j Hj; [reflexivity|].
  cbn [fold_left]. rewrite IH.
  - apply settle_untouched. intros ->. apply Hj. left. reflexivity.
  - intros H. apply Hj. right. exact H.
Qed.

Lemma settle_length (type : string)
    (tasks : list (option (Request * QueryMetadata)))
    (acc : State * list (option (option SubResult))) (ev : nat * Settled) :
  List.length (snd (settle type tasks acc ev)) = List.length (snd acc).
Proof.
  destruct acc as [st slots]. unfold settle.
  destruct (nth_error tasks (fst ev)) as [[[request md]|]|]; try reflexivity.
  destruct (nth_error slots (fst ev)) as [[v|]|]; try reflexivity.
  destruct (onSettled type md (snd ev) st) as [st' value]. cbn [snd].
  apply set_nth_length.
Qed.

Lemma fold_settle_length (type : string)
    (tasks : list (option (Request * QueryMetadata)))
    (schedule : list (nat * Settled)) :
  forall acc : State * list (option (option SubResult)),
    List.length (snd (fold_left (settle type tasks) schedule acc)) =
    List.length (snd acc).
Proof.
  induction schedule as [|ev schedule IH]; intros acc; [reflexivity|].
  cbn [fold_left]. rewrite IH. apply settle_length.
Qed.

(** The slot of a call that settled holds what its handler returned. *)
Lemma fold_settle_slots (type : string)
    (tasks : list (option (Request * QueryMetadata)))
    (schedule : list (nat * Settled)) :
  forall (st : State) (slots : list (option (option SubResult))),
    NoDup (map fst schedule) ->
    (forall i, In i (map fst schedule) ->
               nth_error slots i = Some None /\
               exists request md, nth_error tasks i = Some (Some (request, md))) ->
    forall i outcome,
      In (i, outcome) schedule ->
      exists request md,
        nth_error tasks i = Some (Some (request, md)) /\
        nth_error (snd (fold_left (settle type tasks) schedule (st, slots))) i =
        Some (Some match outcome with
                   | Fulfilled res => Some (mkSubResult res md)
                   | Rejected _ => None
                   end).
Proof.
  induction schedule as [|[i0 o0] schedule IH];
    intros st slots Hnodup Hready i outcome Hin; [contradiction|].
  inversion Hnodup as [|? ? Hnotin Hnodup']; subst.
  destruct (Hready i0 (or_introl eq_refl)) as (Hslot & request & md & Htask).
  cbn [fold_left].
  assert (Hstep : settle type tasks (st, slots) (i0, o0) =
                  (fst (onSettled type md o0 st),
                   set_nth i0 (Some (snd (onSettled type md o0 st))) slots)).
  { unfold settle. cbn [fst snd]. rewrite Htask, Hslot.
    destruct (onSettled type md o0 st); reflexivity. }
  rewrite Hstep.
  destruct Hin as [[= -> ->] | Hin].
  - exists request, md. split; [exact Htask|].
    rewrite fold_settle_untouched by exact Hnotin. cbn [snd].
    rewrite (nth_error_set_nth_same _ _ _ _ Hslot).
    rewrite onSettled_value. reflexivity.
  - apply IH; [exact Hnodup'| |exact Hin].
    intros j Hj. destruct (Hready j (or_intror Hj)) as (Hslotj & Htaskj).
    split; [|exact Htaskj].
    rewrite nth_error_set_nth_other; [exact Hslotj|].
    intros ->. contradiction.
Qed.

Lemma Promise_all_nth {A : Type} (slots : list (option A)) :
  forall (values : list A) (i : nat) (v : A),
    Promise_all slots = Some values ->
    nth_error slots i = Some (Some v) ->
    nth_error values i = Some v.
Proof.
  induction slots as [|[a|] slots IH]; intros values i v Hall Hnth.
  - destruct i; discriminate.
  - simpl in Hall. destruct (Promise_all slots) as [l|] eqn:E; [|discriminate].
    injection Hall as <-. destruct i; simpl in *.
    + congruence.
    + apply (IH l); [reflexivity|exact Hnth].
  - discriminate.
Qed.

Lemma Promise_all_settled {A : Type} (slots : list (option A)) :
  (forall i, (i < List.length slots)%nat -> exists v, nth_error slots i = Some (Some v)) ->
  exists values, Promise_all slots = Some values.
Proof.
  induction slots as [|s slots IH]; intros H; [exists []; reflexivity|].
  destruct (H 0%nat) as [v Hv]; [simpl; lia|]. simpl in Hv. injection Hv as ->.
  destruct IH as [values E].
  - intros i Hi. apply (H (S i)). simpl. lia.
  - simpl. rewrite E. eexists. reflexivity.
Qed.

Lemma mapField_undefined {A : Type} (field : SubResult -> A)
    (queryResults : list (option SubResult)) (i : nat) :
  nth_error queryResults i = Some None -> mapField field queryResults = None.
Proof.
  revert i. induction queryResults as [|[r|] l IH]; intros i H.
  - destruct i; discriminate.
  - destruct i; simpl in H; [discriminate|].
    simpl. rewrite (IH i H). reflexivity.
  - reflexivity.
Qed.

Lemma afterHandler_keeps (type : string) (outcome : Settled) (st : State) :
  data (afterHandler type outcome st) = data st /\
  metadata (afterHandler type outcome st) = metadata st /\
  loading (afterHandler type outcome st) = loading st.
Proof.
  destruct outcome; simpl; [repeat split|].
  unfold processApiError.
  destruct ((type =? "promql")%string || (type =? "sql")%string); [|repeat split].
  destruct (errorDetailValue error type); repeat split.
Qed.

Lemma handlers_keep (type : string) (schedule : list (nat * Settled)) :
  forall st : State,
    data (fold_left (fun st ev => afterHandler type (snd ev) st) schedule st) = data st /\
    metadata (fold_left (fun st ev => afterHandler type (snd ev) st) schedule st)
      = metadata st.
Proof.
  induction schedule as [|ev schedule IH]; intros st; [split; reflexivity|].
  cbn [fold_left]. destruct (IH (afterHandler type (snd ev) st)) as [Hd Hm].
  destruct (afterHandler_keeps type (snd ev) st) as (Hd' & Hm' & _).
  split; congruence.
Qed.

Lemma loadData_start_keeps (env : Env) (st : State) :
  data (fst (start env st)) = data st /\
  metadata (fst (start env st)) = metadata st.
Proof.
  unfold loadData_start. destruct (_ && _); [split; reflexivity|].
  destruct (queries (panelSchema env)); [split; reflexivity|].
  destruct (timeWindow env); split; reflexivity.
Qed.

(** Whenever a call of an attempt is rejected, and whatever the order in
    which the calls settle, the rest of [loadData] throws on the
    [undefined] which the [catch] handler returned: [loading] is reset, and
    [data] and [metadata] keep what they held before the attempt. *)
Lemma rejected_call_throws (env : Env) (schedule : list (nat * Settled))
    (st st1 : State) (type : string)
    (tasks : list (option (Request * QueryMetadata))) (i : nat) (error : ApiError) :
  start env st = (st1, Awaiting type tasks) ->
  Forall (fun t => t <> None) tasks ->
  settlesEachOnce tasks schedule ->
  In (i, Rejected error) schedule ->
  snd (run env schedule st) = Thrown /\
  loading (fst (fst (run env schedule st))) = false /\
  data (fst (fst (run env schedule st))) = data st /\
  metadata (fst (fst (run env schedule st))) = metadata st.
Proof.
  intros Hstart Hall Hvalid Hin.
  rewrite (loadData_awaiting env schedule st st1 type tasks Hstart Hall).
  pose proof (handlers_of_attempt type tasks schedule st1 Hall Hvalid) as Hstate.
  destruct Hvalid as [Hnodup Hidx].
  assert (Hready : forall j, In j (map fst schedule) ->
            nth_error (map (fun _ => @None (option SubResult)) tasks) j = Some None /\
            exists request md, nth_error tasks j = Some (Some (request, md))).
  { intros j Hj. apply Hidx in Hj. split.
    - apply nth_error_pending. exact Hj.
    - destruct (nth_error_task tasks j Hall Hj) as [[request md] E].
      exists request, md. exact E. }
  pose proof (fold_settle_slots type tasks schedule st1 _ Hnodup Hready) as Hslots.
  pose proof (fold_settle_length type tasks schedule
                (st1, map (fun _ => None) tasks)) as Hlen.
  cbn [snd] in Hlen. rewrite length_map in Hlen.
  destruct (fold_left (settle type tasks) schedule (st1, map (fun _ => None) tasks))
    as [st2 slots]. cbn [fst snd] in *.
  destruct (Promise_all_settled slots) as [queryResults Hvalues].
  { intros j Hj. rewrite Hlen in Hj. apply Hidx in Hj.
    apply in_map_iff in Hj. destruct Hj as ([j' o] & Hfst & Hj). simpl in Hfst.
    subst j'. destruct (Hslots j o Hj) as (request & md & _ & E).
    eexists. exact E. }
  rewrite Hvalues.
  destruct (Hslots i (Rejected error) Hin) as (request & md & _ & Hslot).
  pose proof (Promise_all_nth slots queryResults i None Hvalues Hslot) as Hnone.
  unfold loadData_resume.
  rewrite (mapField_undefined sr_result queryResults i Hnone). cbn [fst snd].
  destruct (handlers_keep type schedule st1) as [Hd Hm].
  pose proof (loadData_start_keeps env st) as [Hd1 Hm1].
  rewrite Hstart in Hd1, Hm1. cbn [fst] in Hd1, Hm1.
  repeat split; simpl; congruence.
Qed.

(** C1 on the code.  On the panel with two sub-queries, the call of the
    first succeeds and the call of the second is rejected with the message
    "boom", settling in this order.  Both calls are made and the message is
    recorded, but [loadData] throws behind its [await]: [data] stays the
    empty array it was, with no entry for either sub-query, and [metadata]
    stays unset. *)
Theorem partial_failure_throws :
  run twoQueryEnv [(0%nat, Fulfilled "r0"); (1%nat, Rejected boom)] freshState =
  (mkState [] false "boom" None false true [] [],
   [metrics_query_range "default" "up" 0 3600000;
    metrics_query_range "default" "rate(http_requests[5m])" 0 3600000],
   Thrown).
Proof. reflexivity. Qed.

End LoaderFacts.

(** ** The substitution step *)

Lemma getSubstitution_dollarFree (matched before after template : string) :
  dollarFree template = true ->
  getSubstitution matched before after template = template.
Proof.
  induction template as [|a t IH]; [reflexivity|].
  simpl. intros H. apply andb_true_iff in H. destruct H as [Ha Ht].
  apply negb_true_iff in Ha. rewrite Ha. f_equal. apply IH. exact Ht.
Qed.

Lemma prefix_split (token s : string) :
  prefix token s = true -> s = token ++ drop (String.length token) s.
Proof.
  revert s. induction token as [|a token IH]; intros s H; [reflexivity|].
  destruct s as [|c s]; [discriminate|].
  simpl in H. destruct (Ascii.ascii_dec a c) as [->|]; [|discriminate].
  simpl. f_equal. apply IH. exact H.
Qed.

Lemma drop_append (token rest : string) :
  drop (String.length token) (token ++ rest) = rest.
Proof. induction token; simpl; auto. Qed.

Lemma replaceAll_from_skip (token value : string) (s1 : string) :
  forall before s2,
    replaceAll_from token value before (s1 ++ s2) (String.length s1) =
    replaceAll_from token value (before ++ s1) s2 0.
Proof.
  induction s1 as [|c s1 IH]; intros before s2.
  - simpl. rewrite append_nil_r. reflexivity.
  - simpl. rewrite IH. rewrite append_assoc. reflexivity.
Qed.

(** A query that does not hold the token comes back as it is. *)
Lemma replaceAll_absent (token value : string) (s : string) :
  forall before,
    includes s token = false ->
    replaceAll_from token value before s 0 = s.
Proof.
  induction s as [|c s IH]; intros before H.
  - simpl in *. rewrite orb_false_r in H.
    destruct token; [discriminate|]. reflexivity.
  - cbn [includes] in H. apply orb_false_iff in H. destruct H as [Hp Hrest].
    cbn [replaceAll_from]. rewrite Hp. f_equal. apply IH. exact Hrest.
Qed.

Lemma length_append (s t : string) :
  String.length (s ++ t) = (String.length s + String.length t)%nat.
Proof. induction s; simpl; auto. Qed.

(** With a value that has no dollar sign, [replaceAll] is the literal
    replacement of the occurrences of the token. *)
Lemma replaceAll_from_literal (token value : string) :
  token <> "" ->
  dollarFree value = true ->
  forall (n : nat) (rest before : string),
    (String.length rest <= n)%nat ->
    LiteralReplace token value rest (replaceAll_from token value before rest 0).
Proof.
  intros Htoken Hvalue.
  induction n as [|n IH]; intros rest before Hlen.
  - destruct rest; [|simpl in Hlen; lia].
    simpl. destruct token; [congruence|]. constructor.
  - destruct rest as [|c rest'].
    + simpl. destruct token; [congruence|]. constructor.
    + cbn [replaceAll_from].
      destruct (prefix token (String c rest')) eqn:Hp.
      * rewrite (getSubstitution_dollarFree _ _ _ _ Hvalue).
        pose proof (prefix_split _ _ Hp) as Hsplit.
        remember (drop (String.length token) (String c rest')) as rest2 eqn:E.
        clear E.
        destruct token as [|t0 tk]; [congruence|].
        cbn [String.length].
        simpl in Hsplit. injection Hsplit as -> ->.
        rewrite replaceAll_from_skip.
        change (String t0 (tk ++ rest2)) with (String t0 tk ++ rest2).
        apply lr_occurrence. apply IH.
        simpl in Hlen. rewrite length_append in Hlen. lia.
      * apply lr_other; [exact Hp|]. apply IH. simpl in Hlen. lia.
Qed.

(** The step of [replaceQueryValue] on a variable: the ledger gets one
    entry exactly when the query holds the token; a query without the token
    comes back unchanged; and a value without a dollar sign takes the place
    of every occurrence of the token. *)
Lemma substituteVariable_ledger (type query : string) (ledger : list LedgerEntry)
    (variable : NamedValue) :
  (includes query ("$" ++ nv_name variable) = true ->
   snd (substituteVariable type (query, ledger) variable) =
   (ledger ++ [mkEntry type (nv_name variable) (nv_value variable) None])%list)
  /\
  (includes query ("$" ++ nv_name variable) = false ->
   substituteVariable type (query, ledger) variable = (query, ledger))
  /\
  (dollarFree (stringify (nv_value variable)) = true ->
   LiteralReplace ("$" ++ nv_name variable) (stringify (nv_value variable))
     query (fst (substituteVariable type (query, ledger) variable))).
Proof.
  unfold substituteVariable. cbn [fst snd]. repeat split.
  - intros ->. reflexivity.
  - intros H. rewrite H. unfold replaceAll.
    rewrite (replaceAll_absent _ _ _ _ H). reflexivity.
  - intros H. unfold replaceAll.
    assert (Htoken : "$" ++ nv_name variable <> "") by (simpl; discriminate).
    apply (replaceAll_from_literal _ _ Htoken H (String.length query)).
    lia.
Qed.

Lemma substituteVariable_ledger_witness :
  snd (substituteVariable "variable" ("SELECT * FROM t WHERE r=$region", [])
         (mkNamed "region" (Scalar "us-east"))) =
  [mkEntry "variable" "region" (Scalar "us-east") None] /\
  substituteVariable "fixed" ("SELECT 1", []) (mkNamed "__interval_ms" (Scalar "1ms")) =
  ("SELECT 1", []) /\
  LiteralReplace "$region" "us-east" "SELECT * FROM t WHERE r=$region"
    (fst (substituteVariable "variable" ("SELECT * FROM t WHERE r=$region", [])
            (mkNamed "region" (Scalar "us-east")))).
Proof.
  split; [|split].
  - apply (proj1 (substituteVariable_ledger "variable"
                    "SELECT * FROM t WHERE r=$region" []
                    (mkNamed "region" (Scalar "us-east")))).
    reflexivity.
  - apply (proj1 (proj2 (substituteVariable_ledger "fixed" "SELECT 1" []
                           (mkNamed "__interval_ms" (Scalar "1ms"))))).
    reflexivity.
  - apply (proj2 (proj2 (substituteVariable_ledger "variable"
                           "SELECT * FROM t WHERE r=$region" []
                           (mkNamed "region" (Scalar "us-east"))))).
    reflexivity.
Defined.

Lemma prefix_append (token rest : string) : prefix token (token ++ rest) = true.
Proof.
  induction token as [|a token IH]; simpl; [destruct rest; reflexivity|].
  destruct (Ascii.ascii_dec a a); [exact IH|congruence].
Qed.

Lemma append_inj_l (token r1 r2 : string) : token ++ r1 = token ++ r2 -> r1 = r2.
Proof. induction token; simpl; intros H; [exact H|]. injection H as H. auto. Qed.

(** The literal replacement is a function of the query. *)
Lemma LiteralReplace_functional (token value s o1 o2 : string) :
  token <> "" ->
  LiteralReplace token value s o1 ->
  LiteralReplace token value s o2 ->
  o1 = o2.
Proof.
  intros Htoken H1. revert o2.
  induction H1 as [|rest out H1 IH|c rest out Hp H1 IH]; intros o2 H2.
  - inversion H2 as [|rest' out' H' E|]; subst; [reflexivity|].
    destruct token; [congruence|discriminate].
  - remember (token ++ rest) as s eqn:Es.
    destruct H2 as [|rest' out' H'|c rest' out' Hp' H'].
    + destruct token; [congruence|discriminate].
    + apply append_inj_l in Es. subst rest'. f_equal. apply IH. exact H'.
    + rewrite Es, prefix_append in Hp'. discriminate.
  - remember (String c rest) as s eqn:Es.
    destruct H2 as [|rest' out' H'|c' rest' out' Hp' H'].
    + discriminate.
    + rewrite prefix_append in Hp. discriminate.
    + injection Es as -> ->. f_equal. apply IH. exact H'.
Qed.

(** C6 on the code.  With the value [us$$east], the step puts [us$east] in
    the place of the token: [replaceAll] reads the two dollars of the
    replacement text as one, where the literal replacement, which is
    unique, keeps the value. *)
Theorem substituteVariable_dollar_pattern :
  substituteVariable "variable" ("SELECT * FROM t WHERE r=$region", [])
    (mkNamed "region" (Scalar "us$$east")) =
  ("SELECT * FROM t WHERE r=us$east",
   [mkEntry "variable" "region" (Scalar "us$$east") None]) /\
  LiteralReplace "$region" "us$$east"
    "SELECT * FROM t WHERE r=$region" "SELECT * FROM t WHERE r=us$$east" /\
  ~ LiteralReplace "$region" "us$$east"
      "SELECT * FROM t WHERE r=$region" "SELECT * FROM t WHERE r=us$east".
Proof.
  assert (Hliteral : LiteralReplace "$region" "us$$east"
            "SELECT * FROM t WHERE r=$region" "SELECT * FROM t WHERE r=us$$east").
  { repeat (apply lr_other; [reflexivity|]).
    apply (lr_occurrence "$region" "us$$east" "" ""). constructor. }
  split; [reflexivity|]. split; [exact Hliteral|].
  intros H.
  assert (Htoken : "$region" <> "") by discriminate.
  pose proof (LiteralReplace_functional _ _ _ _ _ Htoken H Hliteral) as E.
  discriminate E.
Qed.

(** ** The theorems on the inputs of the examples *)

Lemma never_fetch_while_loading_witness :
  waitsForVariable (regionEnv "us-east" true) /\
  calls (snd (react noFraction keepPromQl keepSql
                (regionEnv "us-east" true) LoadDataCalled (regionState ""))) = [] /\
  isQueryDependentOnTheVariables (regionEnv "us-east" false) &&
  negb (canRunQueryBasedOnVariables (regionEnv "us-east" false)) = false.
Proof.
  assert (Hwait : waitsForVariable (regionEnv "us-east" true)).
  { exists [mkVariable "region" "query_values" (Scalar "us-east") true],
           (mkVariable "region" "query_values" (Scalar "us-east") true).
    repeat split; try reflexivity. simpl. left. reflexivity. }
  split; [exact Hwait|]. split.
  - apply (proj1 (never_fetch_while_loading noFraction keepPromQl keepSql)
             (regionEnv "us-east" true) (regionState "") _ _ Hwait
             (step_event noFraction keepPromQl keepSql
                (regionEnv "us-east" true) LoadDataCalled (regionState ""))).
  - apply (proj2 (never_fetch_while_loading noFraction keepPromQl keepSql)
             (regionEnv "us-east" false)).
    intros values v Hvalues Hin _ _. simpl in Hvalues.
    injection Hvalues as <-. simpl in Hin. destruct Hin as [<- | []].
    reflexivity.
Defined.


Lemma success_resets_errorDetail_witness :
  exists pre i error post,
    [(0%nat, Fulfilled "r0"); (1%nat, Rejected boom)] =
      (pre ++ (i, Rejected error) :: post)%list /\
    Forall (fun ev => isRejected (snd ev)) post.
Proof.
  eapply (proj1 (proj2 (success_resets_errorDetail noFraction keepPromQl keepSql))
            twoQueryEnv _ freshState).
  - vm_compute. reflexivity.
  - repeat constructor; discriminate.
  - split.
    + simpl. repeat constructor; simpl; intuition lia.
    + intros i. simpl. split; intros H; lia.
  - vm_compute. discriminate.
Defined.

(** * Further properties of the code *)

(** ** The interval calculator *)

Lemma within_downward (q1 q2 : Q) (b : Breakpoint) :
  (q1 <= q2)%Q -> within (Finite q2) b = true -> within (Finite q1) b = true.
Proof.
  intros Hle H. apply within_finite. apply within_finite in H.
  destruct (bp_strict b).
  - eapply Qle_lt_trans; eauto.
  - eapply Qle_trans; eauto.
Qed.

(** On a list sorted by a key, a test that holds more often finds an
    element of a smaller key. *)
Lemma find_monotone {A : Type} (key : A -> Q) (p1 p2 : A -> bool)
    (fallback : Q) (l : list A) :
  StronglySorted (fun a b => (key a <= key b)%Q) l ->
  Forall (fun a => (key a <= fallback)%Q) l ->
  (forall a, p2 a = true -> p1 a = true) ->
  (match find p1 l with Some a => key a | None => fallback end <=
   match find p2 l with Some b => key b | None => fallback end)%Q.
Proof.
  intros Hsorted Hbound Himp.
  induction l as [|x l IH]; [apply Qle_refl|].
  inversion Hsorted as [|? ? Hsorted' Hhead]; subst.
  inversion Hbound as [|? ? Hx Hbound']; subst.
  simpl. destruct (p1 x) eqn:E1.
  - destruct (p2 x) eqn:E2; [apply Qle_refl|].
    destruct (find p2 l) as [b|] eqn:Ef; [|exact Hx].
    apply find_some in Ef. destruct Ef as [Hin _].
    rewrite Forall_forall in Hhead. apply Hhead. exact Hin.
  - destruct (p2 x) eqn:E2.
    + rewrite (Himp x E2) in E1. discriminate.
    + apply IH; assumption.
Qed.

Lemma breakpoints_sorted :
  StronglySorted
    (fun a b => (bucketSeconds (bp_bucket a) <= bucketSeconds (bp_bucket b))%Q)
    breakpoints.
Proof.
  unfold breakpoints.
  repeat (constructor;
          [|repeat (constructor; [apply Qle_bool_iff; reflexivity|]); constructor]).
  constructor.
Qed.

Lemma breakpoints_below_fallback :
  Forall (fun a => (bucketSeconds (bp_bucket a) <= bucketSeconds fallbackBucket)%Q)
    breakpoints.
Proof.
  unfold breakpoints.
  repeat (constructor; [apply Qle_bool_iff; reflexivity|]). constructor.
Qed.

(** X1. The bucket grows with the raw interval: of two finite intervals,
    the larger one never gets the shorter bucket. *)
Theorem formatInterval_monotone (q1 q2 : Q) :
  (q1 <= q2)%Q ->
  (bucketSeconds (formatInterval (Finite q1)) <=
   bucketSeconds (formatInterval (Finite q2)))%Q.
Proof.
  intros Hle. rewrite !formatInterval_find.
  pose proof (find_monotone (fun b => bucketSeconds (bp_bucket b))
                (within (Finite q1)) (within (Finite q2))
                (bucketSeconds fallbackBucket) breakpoints
                breakpoints_sorted breakpoints_below_fallback
                (fun b => within_downward q1 q2 b Hle)) as H.
  destruct (find (within (Finite q1)) breakpoints),
           (find (within (Finite q2)) breakpoints); exact H.
Qed.

Lemma formatInterval_monotone_witness :
  (1500 <= 1501)%Q /\
  (bucketSeconds (formatInterval (Finite 1500)) <=
   bucketSeconds (formatInterval (Finite 1501)))%Q.
Proof.
  split; [apply Qle_bool_iff; reflexivity|].
  apply (formatInterval_monotone 1500 1501). apply Qle_bool_iff. reflexivity.
Defined.

(** X2. With the scrape interval unset, the rate window of every bucket is
    a whole number of seconds, and at least a minute. *)
Theorem rateInterval_default_whole (x : number) :
  exists n : Z,
    60 <= n /\ (rateInterval None (formatInterval x) == inject_Z n)%Q.
Proof.
  pose proof (formatInterval_in_table x) as H.
  unfold bucketTable, breakpoints, fallbackBucket in H. simpl in H.
  repeat (destruct H as [<- | H];
          [ match goal with
            | |- exists n, _ /\ (rateInterval None ?b == _)%Q =>
                let v := eval vm_compute in (Qnum (rateInterval None b)) in
                exists v; split; [lia | reflexivity]
            end |]).
  contradiction.
Qed.

(** X3. With the scrape interval unset, the values of the three fixed
    variables are the same however fractional numbers print, they are not
    empty and they hold no dollar sign, whatever the time range and the
    width are. *)
Theorem fixedVariables_default (f1 f2 : Q -> string) (env : Env) (s e : Z) :
  scrape_interval env = None ->
  fixedVariables f1 env s e = fixedVariables f2 env s e /\
  Forall (fun v => dollarFree (stringify (nv_value v)) = true /\
                   stringify (nv_value v) <> "")
    (fixedVariables f1 env s e).
Proof.
  intros Hscrape. unfold fixedVariables. rewrite Hscrape.
  pose proof (formatInterval_in_table (rawInterval s e (offsetWidth env))) as H.
  revert H. generalize (formatInterval (rawInterval s e (offsetWidth env))).
  intros b H. unfold bucketTable, breakpoints, fallbackBucket in H. simpl in H.
  repeat (destruct H as [<- | H];
          [ split;
            [ reflexivity
            | repeat (constructor; [split; [reflexivity|cbv; discriminate]|]);
              constructor ] |]).
  contradiction.
Qed.

Lemma fixedVariables_default_witness :
  scrape_interval twoQueryEnv = None /\
  fixedVariables noFraction twoQueryEnv 0 3600000 =
  fixedVariables (fun _ => "?") twoQueryEnv 0 3600000.
Proof.
  split; [reflexivity|].
  apply (proj1 (fixedVariables_default noFraction (fun _ => "?") twoQueryEnv
                  0 3600000 eq_refl)).
Defined.

Lemma Qfloor_nonpos (q : Q) : (q <= 0)%Q -> Qfloor q <= 0.
Proof.
  intros H. change 0 with (Qfloor (inject_Z 0)) at 1.
  rewrite Qfloor_Z. change 0 with (Qfloor 0%Q). apply Qfloor_resp_le. exact H.
Qed.

Lemma Qdiv_nonpos (q c : Q) : (q <= 0)%Q -> (0 < c)%Q -> (q / c <= 0)%Q.
Proof.
  intros Hq Hc. apply Qle_shift_div_r; [exact Hc|]. rewrite Qmult_0_l. exact Hq.
Qed.

(** On a dividend that is not positive, [%] gives a remainder that is not
    positive. *)
Lemma js_rem_nonpos (q c : Q) : (q <= 0)%Q -> (0 < c)%Q -> (js_rem q c <= 0)%Q.
Proof.
  intros Hq Hc. unfold js_rem, Qtrunc.
  pose proof (Qdiv_nonpos q c Hq Hc) as Hdiv.
  destruct (Qle_bool 0 (q / c)) eqn:E.
  - apply Qle_bool_iff in E.
    assert (Hz : (q / c == 0)%Q) by (apply Qle_antisym; assumption).
    rewrite (Qfloor_comp _ _ Hz). change (Qfloor 0) with 0.
    change (inject_Z 0) with 0%Q. rewrite Qmult_0_r.
    unfold Qminus. change (- 0)%Q with 0%Q. rewrite Qplus_0_r. exact Hq.
  - pose proof (Qle_ceiling (q / c)) as Hceil.
    assert (Hmul : (q / c * c <= inject_Z (Qceiling (q / c)) * c)%Q).
    { apply Qmult_le_compat_r; [exact Hceil|]. apply Qlt_le_weak. exact Hc. }
    assert (Hqc : (q / c * c == q)%Q).
    { field. intros Hz. rewrite Hz in Hc. exact (Qlt_irrefl 0 Hc). }
    rewrite Hqc in Hmul. rewrite (Qmult_comm c). lra.
Qed.

(** X4. [formateRateInterval] renders a duration that is zero or negative,
    whole or not, as the empty string. *)
Theorem formateRateInterval_nonpositive (fractionToString : Q -> string) (q : Q) :
  (q <= 0)%Q -> formateRateInterval fractionToString q = "".
Proof.
  intros Hq. unfold formateRateInterval, Math_floor.
  assert (H86400 : (0 < 3600 * 24)%Q) by reflexivity.
  assert (H3600 : (0 < 3600)%Q) by reflexivity.
  assert (H60 : (0 < 60)%Q) by reflexivity.
  pose proof (Qfloor_nonpos _ (Qdiv_nonpos q _ Hq H86400)) as Hd.
  pose proof (Qfloor_nonpos _ (Qdiv_nonpos _ 3600 (js_rem_nonpos q _ Hq H86400)
                                 H3600)) as Hh.
  pose proof (Qfloor_nonpos _ (Qdiv_nonpos _ 60 (js_rem_nonpos q _ Hq H3600)
                                 H60)) as Hm.
  pose proof (js_rem_nonpos q 60 Hq H60) as Hs.
  apply Qle_bool_iff in Hs.
  apply Z.ltb_ge in Hd, Hh, Hm.
  rewrite Hd, Hh, Hm, Hs. reflexivity.
Qed.

Lemma formateRateInterval_nonpositive_witness :
  (-90 <= 0)%Q /\ formateRateInterval noFraction (-90) = "".
Proof.
  split; [apply Qle_bool_iff; reflexivity|].
  apply (formateRateInterval_nonpositive noFraction (-90)).
  apply Qle_bool_iff. reflexivity.
Defined.

(** ** The error message *)






(** X6. [processApiError] leaves the state, and with it an older
    [errorDetail], as it is in three cases: for a type other than "promql"
    and "sql"; for a rejection without a response and without a message;
    and, for "sql", for a rejection whose response has no data, even when
    the rejection has a message. *)
Theorem processApiError_unrecorded (error : ApiError) (type : string) (st : State) :
  (type <> "promql" -> type <> "sql" -> processApiError error type st = st) /\
  (err_response error = None -> err_message error = None ->
   processApiError error type st = st) /\
  (type = "sql" -> err_response error = Some None ->
   processApiError error type st = st).
Proof.
  unfold processApiError. repeat split.
  - intros H1 H2. apply String.eqb_neq in H1, H2. rewrite H1, H2. reflexivity.
  - intros Hr Hm. unfold errorDetailValue. rewrite Hr, Hm.
    destruct ((type =? "promql")%string || (type =? "sql")%string);
      [|reflexivity].
    destruct (type =? "promql")%string; reflexivity.
  - intros -> Hr. unfold errorDetailValue. rewrite Hr. reflexivity.
Qed.

Lemma processApiError_unrecorded_witness :
  processApiError boom "other" (set_errorDetail "old" freshState)
    = set_errorDetail "old" freshState /\
  processApiError (mkApiError None None) "promql" (set_errorDetail "old" freshState)
    = set_errorDetail "old" freshState /\
  processApiError (mkApiError (Some None) (Some "boom")) "sql"
      (set_errorDetail "old" freshState)
    = set_errorDetail "old" freshState.
Proof.
  split; [|split].
  - apply (proj1 (processApiError_unrecorded boom "other" _)); discriminate.
  - apply (proj1 (proj2 (processApiError_unrecorded (mkApiError None None)
                           "promql" _))); reflexivity.
  - apply (proj2 (proj2 (processApiError_unrecorded
                           (mkApiError (Some None) (Some "boom")) "sql" _)));
      reflexivity.
Defined.

(** ** Substitution and ad-hoc filters *)



Lemma dynamic_ledger (g : string -> AdHocFilter -> string)
    (filters : list AdHocFilter) :
  forall (query : string) (ledger : list LedgerEntry),
    snd (fold_left
           (fun (acc : string * list LedgerEntry) variable =>
              (g (fst acc) variable, (snd acc ++ [dynamicEntry variable])%list))
           filters (query, ledger)) =
    (ledger ++ map dynamicEntry filters)%list.
Proof.
  induction filters as [|f filters IH]; intros query ledger.
  - simpl. rewrite app_nil_r. reflexivity.
  - cbn [fold_left fst snd map]. rewrite IH, <- app_assoc. reflexivity.
Qed.

Section SubstitutionFacts.

Variable fractionToString : Q -> string.
Variable addLabelToPromQlQuery : string -> string -> string -> string -> string.
Variable addLabelsToSQlQuery : string -> list AdHocFilter -> string.


(** X8. [applyAdhocVariables] records one "dynamicVariable" entry for every
    usable filter, in their order, when the type is "promql" or "sql"; for
    any other type, and when there is no usable filter, it returns the query
    as it is with an empty ledger; and it fails when the store has no
    values. *)
Theorem applyAdhocVariables_ledger (env : Env) (query type : string) :
  (forall filters,
      adHocFiltersOf env = Some filters ->
      (type = "promql" \/ type = "sql" ->
       exists query',
         applyAdhocVariables addLabelToPromQlQuery addLabelsToSQlQuery
           env query type = Some (query', map dynamicEntry filters)) /\
      (type <> "promql" -> type <> "sql" ->
       applyAdhocVariables addLabelToPromQlQuery addLabelsToSQlQuery
         env query type = Some (query, [])) /\
      (filters = [] ->
       applyAdhocVariables addLabelToPromQlQuery addLabelsToSQlQuery
         env query type = Some (query, []))) /\
  (variablesData env = None ->
   applyAdhocVariables addLabelToPromQlQuery addLabelsToSQlQuery
     env query type = None).
Proof.
  split.
  - intros filters Hf. unfold applyAdhocVariables. rewrite Hf.
    repeat split.
    + intros Htype. destruct filters as [|f filters].
      * eexists. reflexivity.
      * cbn [List.length Nat.eqb].
        destruct Htype as [-> | ->]; cbn [String.eqb Ascii.eqb Bool.eqb].
        -- pose proof (dynamic_ledger
                         (fun q v => addLabelToPromQlQuery q (f_name v) (f_value v)
                                       (f_operator v))
                         (f :: filters) query []) as H.
           destruct (fold_left _ (f :: filters) (query, [])) as [query' ledger].
           cbn [snd app] in H. subst ledger. exists query'. reflexivity.
        -- eexists. reflexivity.
    + intros H1 H2. apply String.eqb_neq in H1, H2. rewrite H1, H2.
      destruct (List.length filters =? 0)%nat; reflexivity.
    + intros ->. reflexivity.
  - intros Hnone. unfold applyAdhocVariables, adHocFiltersOf.
    rewrite Hnone. reflexivity.
Qed.

End SubstitutionFacts.

Lemma applyAdhocVariables_ledger_witness :
  exists query',
    applyAdhocVariables keepPromQl keepSql (adHocEnv "promql") "up" "promql" =
    Some (query', [mkEntry "dynamicVariable" "namespace" (Scalar "prod") (Some "=")]).
Proof.
  apply (proj1 (proj1 (applyAdhocVariables_ledger keepPromQl keepSql
                         (adHocEnv "promql") "up" "promql")
                  [mkFilter "namespace" "=" "prod"] eq_refl)).
  left. reflexivity.
Defined.

(** X9. Every filter that [applyAdhocVariables] and the watcher work with
    has an operator, a name and a value that are not empty, and comes out
    of the array of a variable of the type "ad-hoc-filters". *)
Theorem adHocFiltersOf_usable (env : Env) (filters : list AdHocFilter)
    (f : AdHocFilter) :
  adHocFiltersOf env = Some filters ->
  In f filters ->
  f_operator f <> "" /\ f_name f <> "" /\ f_value f <> "" /\
  exists values v l,
    variablesData env = Some values /\ In v values /\
    var_type v = "ad-hoc-filters" /\ var_value v = Filters l /\ In f l.
Proof.
  unfold adHocFiltersOf. destruct (variablesData env) as [values|]; [|discriminate].
  intros [= <-] Hin. apply filter_In in Hin. destruct Hin as [Hin Hfields].
  apply andb_true_iff in Hfields. destruct Hfields as [Hfields Hv].
  apply andb_true_iff in Hfields. destruct Hfields as [Ho Hn].
  apply negb_true_iff in Ho, Hn, Hv.
  apply String.eqb_neq in Ho, Hn, Hv.
  repeat split; try assumption.
  apply in_flat_map in Hin. destruct Hin as (v & Hv_in & Hf).
  apply filter_In in Hv_in. destruct Hv_in as [Hv_in Hadhoc].
  destruct (var_value v) as [s|l] eqn:E; [contradiction|].
  exists values, v, l. repeat split; try assumption.
  apply String.eqb_eq. exact Hadhoc.
Qed.

Lemma adHocFiltersOf_usable_witness :
  f_operator (mkFilter "namespace" "=" "prod") <> "" /\
  f_name (mkFilter "namespace" "=" "prod") <> "" /\
  f_value (mkFilter "namespace" "=" "prod") <> "" /\
  exists values v l,
    variablesData (adHocEnv "sql") = Some values /\ In v values /\
    var_type v = "ad-hoc-filters" /\ var_value v = Filters l /\
    In (mkFilter "namespace" "=" "prod") l.
Proof.
  apply (adHocFiltersOf_usable (adHocEnv "sql") [mkFilter "namespace" "=" "prod"]).
  - reflexivity.
  - simpl. left. reflexivity.
Defined.

(** ** The attempt *)

Lemma set_errorDetail_same (st : State) : set_errorDetail (errorDetail st) st = st.
Proof. destruct st; reflexivity. Qed.

(** A handler changes [errorDetail] at most. *)
Lemma afterHandler_frame (type : string) (outcome : Settled) (st : State) :
  exists detail, afterHandler type outcome st = set_errorDetail detail st.
Proof.
  destruct outcome as [res|error]; simpl; [eexists; reflexivity|].
  unfold processApiError.
  destruct ((type =? "promql")%string || (type =? "sql")%string).
  - destruct (errorDetailValue error type).
    + eexists. reflexivity.
    + exists (errorDetail st). symmetry. apply set_errorDetail_same.
  - exists (errorDetail st). symmetry. apply set_errorDetail_same.
Qed.

Lemma settle_frame (type : string)
    (tasks : list (option (Request * QueryMetadata)))
    (acc : State * list (option (option SubResult))) (ev : nat * Settled) :
  exists detail, fst (settle type tasks acc ev) = set_errorDetail detail (fst acc).
Proof.
  destruct acc as [st slots]. unfold settle.
  destruct (nth_error tasks (fst ev)) as [[[request md]|]|];
    try (exists (errorDetail st); symmetry; apply set_errorDetail_same).
  destruct (nth_error slots (fst ev)) as [[v|]|];
    try (exists (errorDetail st); symmetry; apply set_errorDetail_same).
  pose proof (onSettled_state type md (snd ev) st) as H.
  destruct (onSettled type md (snd ev) st) as [st' value]. simpl in H. subst st'.
  apply afterHandler_frame.
Qed.

Lemma fold_settle_frame (type : string)
    (tasks : list (option (Request * QueryMetadata)))
    (schedule : list (nat * Settled)) :
  forall acc : State * list (option (option SubResult)),
  exists detail,
    fst (fold_left (settle type tasks) schedule acc) = set_errorDetail detail (fst acc).
Proof.
  induction schedule as [|ev schedule IH]; intros acc.
  - exists (errorDetail (fst acc)). symmetry. apply set_errorDetail_same.
  - cbn [fold_left]. destruct (IH (settle type tasks acc ev)) as [d2 E2].
    destruct (settle_frame type tasks acc ev) as [d1 E1].
    exists d2. rewrite E2, E1. reflexivity.
Qed.

Lemma Promise_all_pending {A : Type} (slots : list (option A)) (j : nat) :
  nth_error slots j = Some None -> Promise_all slots = None.
Proof.
  revert j. induction slots as [|[a|] slots IH]; intros j H.
  - destruct j; discriminate.
  - destruct j; simpl in H; [discriminate|]. simpl. rewrite (IH j H). reflexivity.
  - reflexivity.
Qed.

Lemma Promise_all_length {A : Type} (slots : list (option A)) :
  forall values, Promise_all slots = Some values ->
                 List.length values = List.length slots.
Proof.
  induction slots as [|[a|] slots IH]; intros values H.
  - injection H as <-. reflexivity.
  - simpl in H. destruct (Promise_all slots) as [l|]; [|discriminate].
    injection H as <-. simpl. f_equal. apply IH. reflexivity.
  - discriminate.
Qed.

(** When every promise resolved to a result, the fields of the results
    come in the order of the sub-queries. *)
Lemma mapField_defined {A : Type} (field : SubResult -> A)
    (queryResults : list (option SubResult)) :
  (forall i, (i < List.length queryResults)%nat ->
             exists r, nth_error queryResults i = Some (Some r)) ->
  exists l,
    mapField field queryResults = Some l /\
    List.length l = List.length queryResults /\
    forall i r, nth_error queryResults i = Some (Some r) ->
                nth_error l i = Some (field r).
Proof.
  induction queryResults as [|x queryResults IH]; intros H.
  - exists []. repeat split. intros i r Hi. destruct i; discriminate.
  - destruct (H 0%nat) as [r0 Hr0]; [simpl; lia|]. simpl in Hr0.
    injection Hr0 as ->.
    destruct IH as (l & El & Hlen & Hnth).
    { intros i Hi. apply (H (S i)). simpl. lia. }
    exists (field r0 :: l). simpl. rewrite El. repeat split.
    + simpl. congruence.
    + intros i r Hi. destruct i; simpl in *; [congruence|]. apply Hnth. exact Hi.
Qed.


Lemma filter_none {A : Type} (p : A -> bool) (l : list A) :
  (forall x, p x = false) -> filter p l = [].
Proof.
  intros H. induction l as [|a l IH]; simpl; [reflexivity|].
  rewrite H. exact IH.
Qed.

(** No variable is referenced by a panel without sub-queries, and a store
    without values has no dependent variable: the gate is open. *)
Lemma gate_open_without_queries (env : Env) :
  queries (panelSchema env) = [] ->
  isQueryDependentOnTheVariables env && negb (canRunQueryBasedOnVariables env) = false.
Proof.
  intros Hq. apply gate_open. intros values v _ _ _ Href.
  rewrite Hq in Href. discriminate.
Qed.

Lemma gate_open_without_store (env : Env) :
  variablesData env = None ->
  isQueryDependentOnTheVariables env && negb (canRunQueryBasedOnVariables env) = false.
Proof.
  intros Hv. apply gate_open. intros values v H. congruence.
Qed.

Section AttemptFacts.

Variable fractionToString : Q -> string.
Variable addLabelToPromQlQuery : string -> string -> string -> string -> string.
Variable addLabelsToSQlQuery : string -> list AdHocFilter -> string.

Local Notation start :=
  (loadData_start fractionToString addLabelToPromQlQuery addLabelsToSQlQuery).
Local Notation run :=
  (loadData fractionToString addLabelToPromQlQuery addLabelsToSQlQuery).
Local Notation task :=
  (subQueryTask fractionToString addLabelToPromQlQuery addLabelsToSQlQuery).

(** What [loadData] has done when it reaches its [await]. *)
Lemma loadData_start_awaiting (env : Env) (st st1 : State) (type : string)
    (tasks : list (option (Request * QueryMetadata))) :
  start env st = (st1, Awaiting type tasks) ->
  exists first rest window,
    queries (panelSchema env) = first :: rest /\
    timeWindow env = Some window /\
    st1 = set_loading true (set_isDirty false st) /\
    (type = "promql" \/ type = "sql") /\
    tasks = map (task env st1 window (q_stream_type first))
              (queries (panelSchema env)).
Proof.
  unfold loadData_start. destruct (_ && _); [discriminate|].
  destruct (queries (panelSchema env)) as [|first rest]; [discriminate|].
  destruct (timeWindow env) as [window|]; [|discriminate].
  intros [= <- <- <-]. exists first, rest, window. repeat split.
  destruct (queryType (panelSchema env) =? "promql")%string; auto.
Qed.


Lemma subQueryTask_not_called (env : Env) (st : State) (window : Z * Z)
    (pageType : option string) (it : Query) :
  variablesData env = None -> task env st window pageType it = None.
Proof.
  intros Hnone. unfold subQueryTask. destruct window as [s e].
  destruct (replaceQueryValue _ env st (q_query it) s e) as [query1 metadata1].
  unfold applyAdhocVariables, adHocFiltersOf. rewrite Hnone. reflexivity.
Qed.


(** X11. Whatever the inputs and however the calls settle, [loadData]
    leaves the dirty flag cleared, and it changes neither the visibility
    flag nor the two baselines. *)
Theorem loadData_frame (env : Env) (schedule : list (nat * Settled)) (st : State) :
  isDirty (fst (fst (run env schedule st))) = false /\
  isVisible (fst (fst (run env schedule st))) = isVisible st /\
  currentDependentVariablesData (fst (fst (run env schedule st)))
    = currentDependentVariablesData st /\
  currentAdHocVariablesData (fst (fst (run env schedule st)))
    = currentAdHocVariablesData st.
Proof.
  unfold loadData.
  destruct (start env st) as [st1 started] eqn:Estart.
  assert (Hst1 : isDirty st1 = false /\ isVisible st1 = isVisible st /\
                 currentDependentVariablesData st1 = currentDependentVariablesData st /\
                 currentAdHocVariablesData st1 = currentAdHocVariablesData st).
  { revert Estart. unfold loadData_start.
    destruct (_ && _); [intros [= <- _]; repeat split|].
    destruct (queries (panelSchema env)); [intros [= <- _]; repeat split|].
    destruct (timeWindow env); intros [= <- _]; repeat split. }
  destruct started as [| |type tasks]; try exact Hst1.
  destruct (fold_settle_frame type tasks schedule (st1, map (fun _ => None) tasks))
    as [detail E].
  destruct (fold_left _ schedule _) as [st2 slots]. cbn [fst] in E. subst st2.
  destruct (forallb _ tasks).
  - destruct (Promise_all slots) as [queryResults|]; [|exact Hst1].
    unfold loadData_resume.
    destruct (mapField sr_result queryResults); [|exact Hst1].
    destruct (mapField sr_metadata queryResults); exact Hst1.
  - exact Hst1.
Qed.

(** X12. On a panel without sub-queries [loadData] throws before it looks
    at the time range: it clears the dirty flag, calls nothing and leaves
    the rest of the state as it was. *)
Theorem loadData_without_queries (env : Env) (schedule : list (nat * Settled))
    (st : State) :
  queries (panelSchema env) = [] ->
  run env schedule st = (set_isDirty false st, [], Thrown).
Proof.
  intros Hq. unfold loadData, loadData_start.
  rewrite (gate_open_without_queries env Hq), Hq. reflexivity.
Qed.

Lemma settle_not_called (type : string)
    (tasks : list (option (Request * QueryMetadata)))
    (schedule : list (nat * Settled)) :
  Forall (fun t => t = None) tasks ->
  forall acc, fold_left (settle type tasks) schedule acc = acc.
Proof.
  intros Hnone. induction schedule as [|ev schedule IH]; intros acc; [reflexivity|].
  cbn [fold_left]. rewrite <- (IH acc) at 2. f_equal.
  destruct acc as [st slots]. unfold settle.
  destruct (nth_error tasks (fst ev)) as [t|] eqn:E; [|reflexivity].
  apply nth_error_In in E. rewrite Forall_forall in Hnone.
  rewrite (Hnone t E). reflexivity.
Qed.

(** X13. When the store has no values, a call of [loadData] on a panel with
    sub-queries and a valid time range sets [loading] and then throws in
    every sub-query before its call is made: nothing is called, and
    [loading] stays set. *)
Theorem loadData_without_store (env : Env) (schedule : list (nat * Settled))
    (st : State) (window : Z * Z) :
  variablesData env = None ->
  queries (panelSchema env) <> [] ->
  timeWindow env = Some window ->
  run env schedule st = (set_loading true (set_isDirty false st), [], Thrown).
Proof.
  intros Hnone Hq Hwindow. unfold loadData, loadData_start.
  rewrite (gate_open_without_store env Hnone), Hwindow.
  destruct (queries (panelSchema env)) as [|first rest]; [congruence|].
  set (st1 := set_loading true (set_isDirty false st)).
  set (tasks := map _ (first :: rest)).
  assert (Htasks : Forall (fun t => t = None) tasks).
  { apply Forall_forall. intros t Ht. apply in_map_iff in Ht.
    destruct Ht as (it & <- & _). apply subQueryTask_not_called. exact Hnone. }
  rewrite (settle_not_called _ tasks schedule Htasks).
  assert (Hforallb :
    forallb (fun t => match t with Some _ => true | None => false end) tasks = false).
  { unfold tasks. cbn [map forallb].
    rewrite (subQueryTask_not_called env st1 window _ first Hnone). reflexivity. }
  rewrite Hforallb. f_equal. f_equal.
  unfold dispatched. clear Hforallb.
  induction tasks as [|t tasks IH]; [reflexivity|].
  inversion Htasks as [|? ? Ht Htasks']; subst. simpl. apply IH. exact Htasks'.
Qed.

(** The slots when every call of the attempt has settled. *)
Lemma settled_slots (type : string)
    (tasks : list (option (Request * QueryMetadata)))
    (schedule : list (nat * Settled)) (st1 : State) :
  Forall (fun t => t <> None) tasks ->
  settlesEachOnce tasks schedule ->
  exists queryResults,
    Promise_all (snd (fold_left (settle type tasks) schedule
                        (st1, map (fun _ => None) tasks))) = Some queryResults /\
    List.length queryResults = List.length tasks /\
    forall i outcome,
      In (i, outcome) schedule ->
      exists request md,
        nth_error tasks i = Some (Some (request, md)) /\
        nth_error queryResults i =
        Some match outcome with
             | Fulfilled res => Some (mkSubResult res md)
             | Rejected _ => None
             end.
Proof.
  intros Hall [Hnodup Hidx].
  assert (Hready : forall j, In j (map fst schedule) ->
            nth_error (map (fun _ => @None (option SubResult)) tasks) j = Some None /\
            exists request md, nth_error tasks j = Some (Some (request, md))).
  { intros j Hj. apply Hidx in Hj. split.
    - apply nth_error_pending. exact Hj.
    - destruct (nth_error_task tasks j Hall Hj) as [[request md] E].
      exists request, md. exact E. }
  pose proof (fold_settle_slots type tasks schedule st1 _ Hnodup Hready) as Hslots.
  pose proof (fold_settle_length type tasks schedule
                (st1, map (fun _ => None) tasks)) as Hlen.
  cbn [snd] in Hlen. rewrite length_map in Hlen.
  destruct (fold_left (settle type tasks) schedule (st1, map (fun _ => None) tasks))
    as [st2 slots]. cbn [fst snd] in *.
  destruct (Promise_all_settled slots) as [queryResults Hvalues].
  { intros j Hj. rewrite Hlen in Hj. apply Hidx in Hj.
    apply in_map_iff in Hj. destruct Hj as ([j' o] & Hfst & Hj). simpl in Hfst.
    subst j'. destruct (Hslots j o Hj) as (request & md & _ & E).
    eexists. exact E. }
  exists queryResults. split; [exact Hvalues|]. split.
  - rewrite (Promise_all_length slots queryResults Hvalues). exact Hlen.
  - intros i outcome Hin.
    destruct (Hslots i outcome Hin) as (request & md & Htask & Hslot).
    exists request, md. split; [exact Htask|].
    apply (Promise_all_nth slots queryResults i _ Hvalues Hslot).
Qed.

Lemma loadData_errorDetail (env : Env) (schedule : list (nat * Settled))
    (st st1 : State) (type : string)
    (tasks : list (option (Request * QueryMetadata))) :
  start env st = (st1, Awaiting type tasks) ->
  Forall (fun t => t <> None) tasks ->
  settlesEachOnce tasks schedule ->
  errorDetail (fst (fst (run env schedule st))) =
  errorDetail (fold_left (fun st ev => afterHandler type (snd ev) st) schedule st1).
Proof.
  intros Hstart Hall Hvalid.
  rewrite (loadData_awaiting _ _ _ env schedule st st1 type tasks Hstart Hall).
  rewrite <- (handlers_of_attempt type tasks schedule st1 Hall Hvalid).
  destruct (Promise_all _); cbn [fst]; [|reflexivity].
  apply loadData_resume_errorDetail.
Qed.

(** X14. When every call of an attempt succeeds, each settling once and in
    whatever order, [loadData] returns with [loading] reset and
    [errorDetail] empty, and [data] and [metadata] hold one entry for every
    sub-query in the order of the sub-queries: the result of the call of
    sub-query [i] and the metadata prepared for it are at index [i]. *)
Theorem loadData_all_fulfilled (env : Env) (schedule : list (nat * Settled))
    (st st1 : State) (type : string)
    (tasks : list (option (Request * QueryMetadata))) :
  start env st = (st1, Awaiting type tasks) ->
  Forall (fun t => t <> None) tasks ->
  settlesEachOnce tasks schedule ->
  Forall (fun ev => isFulfilled (snd ev)) schedule ->
  snd (run env schedule st) = Returned /\
  loading (fst (fst (run env schedule st))) = false /\
  errorDetail (fst (fst (run env schedule st))) = "" /\
  List.length (data (fst (fst (run env schedule st))))
    = List.length (queries (panelSchema env)) /\
  (forall i res,
      In (i, Fulfilled res) schedule ->
      nth_error (data (fst (fst (run env schedule st)))) i = Some res) /\
  exists ledgers,
    metadata (fst (fst (run env schedule st))) = Some ledgers /\
    List.length ledgers = List.length (queries (panelSchema env)) /\
    forall i request md,
      nth_error tasks i = Some (Some (request, md)) ->
      nth_error ledgers i = Some md.
Proof.
  intros Hstart Hall Hvalid Hful.
  assert (Herr : errorDetail (fst (fst (run env schedule st))) = "").
  { rewrite (loadData_errorDetail env schedule st st1 type tasks Hstart Hall Hvalid).
    destruct (string_dec
                (errorDetail (fold_left (fun st ev => afterHandler type (snd ev) st)
                                schedule st1)) "") as [E|E]; [exact E|].
    assert (Hsched : schedule <> []).
    { pose proof (loadData_start_tasks _ _ _ env st st1 type tasks Hstart) as Hne.
      destruct Hvalid as [_ Hidx]. destruct tasks as [|t tasks]; [congruence|].
      intros ->. specialize (Hidx 0%nat). simpl in Hidx. apply Hidx. lia. }
    destruct (last_handler_decides type schedule st1 Hsched E)
      as (pre & i & error & ->).
    rewrite Forall_forall in Hful.
    exfalso. apply (Hful (i, Rejected error)).
    apply in_or_app. right. left. reflexivity. }
  split; [|split; [|split; [exact Herr|]]].
  all: revert Herr;
    rewrite (loadData_awaiting _ _ _ env schedule st st1 type tasks Hstart Hall);
    intros _.
  all: destruct (settled_slots type tasks schedule st1 Hall Hvalid)
         as (queryResults & -> & Hlen & Hnth).
  all: assert (Hdefined : forall i, (i < List.length queryResults)%nat ->
                 exists r, nth_error queryResults i = Some (Some r)).
  1, 3, 5:
    intros i Hi; rewrite Hlen in Hi;
    destruct Hvalid as [_ Hidx]; apply Hidx in Hi;
    apply in_map_iff in Hi; destruct Hi as ([i' o] & Hfst & Hi);
    simpl in Hfst; subst i';
    destruct (Hnth i o Hi) as (request & md & _ & E);
    rewrite Forall_forall in Hful; specialize (Hful _ Hi); simpl in Hful;
    destruct o as [res|error]; [|contradiction];
    eexists; exact E.
  all: destruct (mapField_defined sr_result queryResults Hdefined)
         as (results & Eres & Hrlen & Hrnth).
  all: destruct (mapField_defined sr_metadata queryResults Hdefined)
         as (ledgers & Emd & Hmlen & Hmnth).
  all: unfold loadData_resume; rewrite Eres, Emd; cbn [fst snd].
  - reflexivity.
  - reflexivity.
  - destruct (loadData_start_awaiting env st st1 type tasks Hstart)
      as (first & rest & window & _ & _ & _ & _ & Etasks).
    assert (Hqlen : List.length tasks = List.length (queries (panelSchema env)))
      by (rewrite Etasks; apply length_map).
    split; [simpl; congruence|]. split.
    + intros i res Hin. destruct (Hnth i _ Hin) as (request & md & _ & E).
      simpl. rewrite (Hrnth i _ E). reflexivity.
    + exists ledgers. split; [reflexivity|]. split; [congruence|].
      intros i request md Htask.
      assert (Hi : (i < List.length tasks)%nat)
        by (apply nth_error_Some; congruence).
      destruct Hvalid as [_ Hidx]. apply Hidx in Hi.
      apply in_map_iff in Hi. destruct Hi as ([i' o] & Hfst & Hi).
      simpl in Hfst. subst i'.
      destruct (Hnth i o Hi) as (request' & md' & Htask' & E).
      rewrite Htask in Htask'. injection Htask' as <- <-.
      rewrite Forall_forall in Hful. specialize (Hful _ Hi). simpl in Hful.
      destruct o as [res|error]; [|contradiction].
      rewrite (Hmnth i _ E). reflexivity.
Qed.

(** X15. As long as the call of some sub-query has not settled, the promise
    of [loadData] stays pending: [loading] stays set, and [data] and
    [metadata] keep what they held before the attempt, whatever the other
    calls did. *)
Theorem loadData_pending (env : Env) (schedule : list (nat * Settled))
    (st st1 : State) (type : string)
    (tasks : list (option (Request * QueryMetadata))) (j : nat) :
  start env st = (st1, Awaiting type tasks) ->
  Forall (fun t => t <> None) tasks ->
  (j < List.length tasks)%nat ->
  ~ In j (map fst schedule) ->
  snd (run env schedule st) = Pending /\
  loading (fst (fst (run env schedule st))) = true /\
  data (fst (fst (run env schedule st))) = data st /\
  metadata (fst (fst (run env schedule st))) = metadata st.
Proof.
  intros Hstart Hall Hj Hnot.
  rewrite (loadData_awaiting _ _ _ env schedule st st1 type tasks Hstart Hall).
  pose proof (fold_settle_untouched type tasks schedule
                (st1, map (fun _ => None) tasks) j Hnot) as Hslot.
  cbn [snd] in Hslot.
  rewrite (nth_error_pending tasks j Hj) in Hslot.
  rewrite (Promise_all_pending _ j Hslot). cbn [fst snd].
  destruct (fold_settle_frame type tasks schedule (st1, map (fun _ => None) tasks))
    as [detail ->]. cbn [fst].
  destruct (loadData_start_awaiting env st st1 type tasks Hstart)
    as (_ & _ & _ & _ & _ & -> & _ & _).
  repeat split.
Qed.


End AttemptFacts.

(** ** The watchers *)

Lemma find_by_name {A : Type} (name : A -> string) (copy : A -> NamedValue)
    (l : list A) (x : A) :
  (forall a, nv_name (copy a) = name a) ->
  NoDup (map name l) ->
  In x l ->
  find (fun it2 => (nv_name it2 =? name x)%string) (map copy l) = Some (copy x).
Proof.
  intros Hname. induction l as [|a l IH]; intros Hnodup Hin; [contradiction|].
  inversion Hnodup as [|? ? Hnotin Hnodup']; subst.
  cbn [map find]. rewrite Hname.
  destruct Hin as [-> | Hin].
  - rewrite String.eqb_refl. reflexivity.
  - destruct (String.eqb_spec (name a) (name x)) as [E|_].
    + exfalso. apply Hnotin. rewrite E. apply in_map. exact Hin.
    + apply IH; assumption.
Qed.

Lemma sameAsBaseline_copy {A : Type} (name : A -> string) (copy : A -> NamedValue)
    (l : list A) (x : A) (value : string) :
  (forall a, nv_name (copy a) = name a) ->
  NoDup (map name l) ->
  In x l ->
  nv_value (copy x) = Scalar value ->
  value <> "" ->
  sameAsBaseline (map copy l) (name x) (Scalar value) = true.
Proof.
  intros Hname Hnodup Hin Hvalue Hne. unfold sameAsBaseline.
  rewrite (find_by_name name copy l x Hname Hnodup Hin), Hvalue.
  simpl. rewrite String.eqb_refl. apply String.eqb_neq in Hne.
  rewrite Hne. reflexivity.
Qed.

(** X17. The decision on the bound variables settles: when the dependent
    variables have distinct names and values that are strings and not
    empty, the decision taken again on the same store, from the state the
    first decision left, reports no change and leaves the state. *)
Theorem bound_decision_settles (env : Env) (st : State)
    (newDependentVariablesData : list VariableBinding) :
  dependentVariables env = Some newDependentVariablesData ->
  NoDup (map var_name newDependentVariablesData) ->
  (forall it, In it newDependentVariablesData ->
              exists value, var_value it = Scalar value /\ value <> "") ->
  shouldITriggerTheQueryForOtherVariables env
    (fst (shouldITriggerTheQueryForOtherVariables env st)) =
  (fst (shouldITriggerTheQueryForOtherVariables env st), false).
Proof.
  intros Hdep Hnodup Hvalues.
  unfold shouldITriggerTheQueryForOtherVariables at 2 3. rewrite Hdep.
  destruct (List.length newDependentVariablesData =? 0)%nat eqn:Elen.
  - cbn [fst]. unfold shouldITriggerTheQueryForOtherVariables.
    rewrite Hdep, Elen. reflexivity.
  - destruct (forallb _ newDependentVariablesData) eqn:Eall; cbn [negb fst].
    + unfold shouldITriggerTheQueryForOtherVariables.
      rewrite Hdep, Elen, Eall. reflexivity.
    + unfold shouldITriggerTheQueryForOtherVariables.
      rewrite Hdep, Elen. cbn [currentDependentVariablesData
                                 set_currentDependentVariablesData].
      assert (Hsame :
        forallb (fun it => sameAsBaseline
                             (map named_of_variable newDependentVariablesData)
                             (var_name it) (var_value it))
          newDependentVariablesData = true).
      { apply forallb_forall. intros it Hin.
        destruct (Hvalues it Hin) as (value & Hvalue & Hne). rewrite Hvalue.
        apply (sameAsBaseline_copy var_name named_of_variable
                 newDependentVariablesData it value); auto. }
      rewrite Hsame. reflexivity.
Qed.

Lemma bound_decision_settles_witness :
  shouldITriggerTheQueryForOtherVariables (regionEnv "us-east" false)
    (fst (shouldITriggerTheQueryForOtherVariables (regionEnv "us-east" false)
            (regionState ""))) =
  (fst (shouldITriggerTheQueryForOtherVariables (regionEnv "us-east" false)
          (regionState "")), false).
Proof.
  apply (bound_decision_settles (regionEnv "us-east" false) (regionState "")
           [mkVariable "region" "query_values" (Scalar "us-east") false]).
  - reflexivity.
  - repeat constructor. simpl. tauto.
  - intros it [<- | []]. exists "us-east". split; [reflexivity|discriminate].
Defined.

Lemma adHocFiltersOf_value (env : Env) (filters : list AdHocFilter) (f : AdHocFilter) :
  adHocFiltersOf env = Some filters -> In f filters -> f_value f <> "".
Proof.
  unfold adHocFiltersOf. destruct (variablesData env); [|discriminate].
  intros [= <-] Hin. apply filter_In in Hin. destruct Hin as [_ H].
  apply andb_true_iff in H. destruct H as [_ H].
  apply negb_true_iff, String.eqb_neq in H. exact H.
Qed.

(** X18. The decision on the ad-hoc filters settles as well, when the
    usable filters have distinct names: taken again on the same store, it
    reports no change and leaves the state. *)
Theorem adHoc_decision_settles (env : Env) (st st' : State) (changed : bool)
    (filters : list AdHocFilter) :
  adHocFiltersOf env = Some filters ->
  NoDup (map f_name filters) ->
  shouldITriggerTheQueryForAdHocVariables env st = Some (st', changed) ->
  shouldITriggerTheQueryForAdHocVariables env st' = Some (st', false).
Proof.
  intros Hf Hnodup.
  assert (Hsettled :
    shouldITriggerTheQueryForAdHocVariables env
      (set_currentAdHocVariablesData (map named_of_filter filters) st) =
    Some (set_currentAdHocVariablesData (map named_of_filter filters) st, false)).
  { unfold shouldITriggerTheQueryForAdHocVariables. rewrite Hf.
    cbn [currentAdHocVariablesData set_currentAdHocVariablesData].
    rewrite length_map, Nat.eqb_refl. cbn [negb].
    destruct (List.length filters =? 0)%nat; [reflexivity|].
    assert (Hsame :
      forallb (fun it => sameAsBaseline (map named_of_filter filters)
                           (f_name it) (Scalar (f_value it))) filters = true).
    { apply forallb_forall. intros it Hin.
      apply (sameAsBaseline_copy f_name named_of_filter filters it (f_value it));
        auto. apply (adHocFiltersOf_value env filters it Hf Hin). }
    rewrite Hsame. reflexivity. }
  unfold shouldITriggerTheQueryForAdHocVariables at 1. rewrite Hf.
  destruct (negb (List.length filters =? _)%nat) eqn:Elen.
  - intros [= <- <-]. exact Hsettled.
  - destruct (List.length filters =? 0)%nat eqn:Ezero.
    + intros [= <- <-]. unfold shouldITriggerTheQueryForAdHocVariables.
      rewrite Hf, Elen, Ezero. reflexivity.
    + destruct (forallb _ filters) eqn:Eall; cbn [negb]; intros [= <- <-].
      * unfold shouldITriggerTheQueryForAdHocVariables.
        rewrite Hf, Elen, Ezero, Eall. reflexivity.
      * exact Hsettled.
Qed.

Lemma adHoc_decision_settles_witness :
  shouldITriggerTheQueryForAdHocVariables (adHocEnv "promql")
    (set_currentAdHocVariablesData
       [mkNamed "namespace" (Scalar "prod")] freshState) =
  Some (set_currentAdHocVariablesData
          [mkNamed "namespace" (Scalar "prod")] freshState, false).
Proof.
  apply (adHoc_decision_settles (adHocEnv "promql") freshState _ true
           [mkFilter "namespace" "=" "prod"]).
  - reflexivity.
  - repeat constructor. simpl. tauto.
  - reflexivity.
Defined.


Lemma hasAtLeastOneQuery_hasQueries (env : Env) :
  hasAtLeastOneQuery env = true -> hasQueries env = true.
Proof.
  unfold hasAtLeastOneQuery, hasQueries.
  destruct (queries (panelSchema env)); [discriminate|reflexivity].
Qed.

Section WatcherFacts.

Variable fractionToString : Q -> string.
Variable addLabelToPromQlQuery : string -> string -> string -> string -> string.
Variable addLabelsToSQlQuery : string -> list AdHocFilter -> string.

Local Notation start :=
  (loadData_start fractionToString addLabelToPromQlQuery addLabelsToSQlQuery).
Local Notation reaction :=
  (react fractionToString addLabelToPromQlQuery addLabelsToSQlQuery).


(** X20. A change of the panel or of the time range on a hidden panel only
    marks it dirty; the fetch is made when the panel becomes visible,
    provided some sub-query has a text.  A panel that becomes hidden, whose
    visibility does not change, or that is not dirty is not fetched by the
    intersection observer. *)
Theorem fetch_deferred_until_visible (env env' : Env) (st : State) :
  isVisible st = false ->
  hasAtLeastOneQuery env' = true ->
  reaction env PanelOrTimeChanged st = (set_isDirty true st, None) /\
  reaction env' (Intersection true) (set_isDirty true st) =
    (fst (start env' (set_isVisible true (set_isDirty true st))),
     Some (snd (start env' (set_isVisible true (set_isDirty true st))))) /\
  (forall st0 isIntersecting,
      isIntersecting = false \/ isIntersecting = isVisible st0 \/
      isDirty st0 = false ->
      snd (reaction env' (Intersection isIntersecting) st0) = None).
Proof.
  intros Hhidden Hquery. repeat split.
  - unfold react. cbn [isVisible set_isDirty]. rewrite Hhidden. reflexivity.
  - unfold react. cbn [isVisible set_isDirty]. rewrite Hhidden.
    cbn [Bool.eqb isVisible isDirty set_isVisible].
    rewrite (hasAtLeastOneQuery_hasQueries env' Hquery), Hquery. cbn [andb].
    destruct (start env' _); reflexivity.
  - intros st0 b H. unfold react.
    destruct (Bool.eqb b (isVisible st0)) eqn:E; [reflexivity|].
    destruct H as [-> | [-> | Hclean]].
    + reflexivity.
    + rewrite Bool.eqb_reflx in E. discriminate.
    + cbn [isVisible isDirty set_isVisible]. rewrite Hclean.
      rewrite andb_false_r. reflexivity.
Qed.

(** X21. The watcher of the variables does nothing at all on a panel
    without sub-queries, and on a store without values it stops before it
    could mark the panel dirty or call [loadData]. *)
Theorem variables_watcher_idle (env : Env) (st : State) :
  (hasQueries env = false -> reaction env VariablesChanged st = (st, None)) /\
  (variablesData env = None -> reaction env VariablesChanged st = (st, None)).
Proof.
  split.
  - intros H. unfold react. rewrite H. reflexivity.
  - intros H. unfold react. destruct (negb (hasQueries env)); [reflexivity|].
    unfold shouldITriggerTheQueryForOtherVariables, dependentVariables.
    rewrite H.
    unfold shouldITriggerTheQueryForAdHocVariables, adHocFiltersOf.
    rewrite H. reflexivity.
Qed.

End WatcherFacts.

(** ** The further properties on the inputs of the examples *)

Lemma two_calls_settle_once (o0 o1 : Settled) (A : Type) (t0 t1 : A) :
  settlesEachOnce [t0; t1] [(1%nat, o1); (0%nat, o0)].
Proof.
  split.
  - simpl. repeat constructor; simpl; intuition lia.
  - intros i. simpl. split; intros H; lia.
Defined.



Lemma loadData_without_queries_witness :
  loadData noFraction keepPromQl keepSql emptyPanelEnv [] freshState =
  (set_isDirty false freshState, [], Thrown).
Proof.
  apply (loadData_without_queries noFraction keepPromQl keepSql emptyPanelEnv []
           freshState).
  reflexivity.
Defined.

Lemma loadData_without_store_witness :
  loadData noFraction keepPromQl keepSql noStoreEnv [] freshState =
  (set_loading true (set_isDirty false freshState), [], Thrown).
Proof.
  apply (loadData_without_store noFraction keepPromQl keepSql noStoreEnv []
           freshState (0, 3600000)).
  - reflexivity.
  - discriminate.
  - reflexivity.
Defined.

Lemma loadData_all_fulfilled_witness :
  snd (loadData noFraction keepPromQl keepSql twoQueryEnv
         [(1%nat, Fulfilled "r1"); (0%nat, Fulfilled "r0")] freshState) = Returned /\
  nth_error
    (data (fst (fst (loadData noFraction keepPromQl keepSql twoQueryEnv
                       [(1%nat, Fulfilled "r1"); (0%nat, Fulfilled "r0")]
                       freshState)))) 0 = Some "r0".
Proof.
  assert (H := fun st1 type tasks Hstart Hall Hvalid Hful =>
    loadData_all_fulfilled noFraction keepPromQl keepSql twoQueryEnv
      [(1%nat, Fulfilled "r1"); (0%nat, Fulfilled "r0")] freshState
      st1 type tasks Hstart Hall Hvalid Hful).
  specialize (H _ _ _ eq_refl).
  specialize (H ltac:(repeat constructor; discriminate)).
  specialize (H (two_calls_settle_once _ _ _ _ _)).
  specialize (H ltac:(repeat constructor)).
  destruct H as (Hret & _ & _ & _ & Hdata & _).
  split; [exact Hret|]. apply Hdata. simpl. right. left. reflexivity.
Defined.

Lemma loadData_pending_witness :
  snd (loadData noFraction keepPromQl keepSql twoQueryEnv
         [(0%nat, Fulfilled "r0")] freshState) = Pending /\
  loading (fst (fst (loadData noFraction keepPromQl keepSql twoQueryEnv
                       [(0%nat, Fulfilled "r0")] freshState))) = true.
Proof.
  assert (H := fun st1 type tasks Hstart Hall =>
    loadData_pending noFraction keepPromQl keepSql twoQueryEnv
      [(0%nat, Fulfilled "r0")] freshState st1 type tasks 1 Hstart Hall).
  specialize (H _ _ _ eq_refl).
  specialize (H ltac:(repeat constructor; discriminate)).
  specialize (H ltac:(simpl; lia)).
  specialize (H ltac:(simpl; intuition lia)).
  destruct H as (Hpending & Hloading & _). split; assumption.
Defined.



Lemma fetch_deferred_until_visible_witness :
  react noFraction keepPromQl keepSql twoQueryEnv PanelOrTimeChanged
    (set_isVisible false freshState) =
  (set_isDirty true (set_isVisible false freshState), None) /\
  calls (snd (react noFraction keepPromQl keepSql twoQueryEnv (Intersection true)
                (set_isDirty true (set_isVisible false freshState)))) =
  [metrics_query_range "default" "up" 0 3600000;
   metrics_query_range "default" "rate(http_requests[5m])" 0 3600000].
Proof.
  destruct (fetch_deferred_until_visible noFraction keepPromQl keepSql
              twoQueryEnv twoQueryEnv (set_isVisible false freshState)
              eq_refl eq_refl) as (Hhidden & Hvisible & _).
  split; [exact Hhidden|]. rewrite Hvisible. reflexivity.
Defined.

Lemma variables_watcher_idle_witness :
  react noFraction keepPromQl keepSql emptyPanelEnv VariablesChanged freshState
    = (freshState, None) /\
  react noFraction keepPromQl keepSql noStoreEnv VariablesChanged freshState
    = (freshState, None).
Proof.
  split.
  - apply (proj1 (variables_watcher_idle noFraction keepPromQl keepSql
                    emptyPanelEnv freshState)).
    reflexivity.
  - apply (proj2 (variables_watcher_idle noFraction keepPromQl keepSql
                    noStoreEnv freshState)).
    reflexivity.
Defined.
